(** * Instax camera wall: a shallow embedding of the React application

    The development follows the three source files:
    - [Wall]     : [src/App.tsx], the container that owns the photo list and
                   the stacking counter, and its four callbacks;
    - [Polaroid] : [src/components/Polaroid.tsx], the card and its
                   [developed] flag driven by a mount effect and a timer;
    - [Camera]   : the capture component (stream set-up, centre crop,
                   hand-off of the still to the wall).

    Conventions.  A React state cell is a record field and a callback is a
    function from the state before to the state after, together with the
    effects it performs on the document.  The stacking counter, which only
    ever holds small integers, is a [Z]; pixel coordinates, ratios and
    angles are rationals [Q], compared with [==].  Where the rounding of
    the code's doubles matters, in the crop, the computation is given
    twice: with exact operations ([Camera.crop]) and with every operation
    rounded to binary64 ([Double.crop]).  Values the code draws from its
    environment
    ([crypto.randomUUID()], [Date.now()], [Math.random()], the promise
    returned by [getUserMedia]) are explicit arguments or events. *)

From Stdlib Require Import ZArith QArith Qround Qabs Qpower Lia Lra Lqa.
From Stdlib Require Import String Ascii List Bool Sorted Floats.
From stdpp Require Import base list strings.
Import ListNotations.

Local Open Scope Z_scope.

(** ** JavaScript helpers *)

Module JS.

(** [ToIntegerOrInfinity] followed by the clamping that
    [String.prototype.slice] applies to one of its two indices: a negative
    index counts from the end, and the result is kept within [0, len]. *)
Definition clamp_index (len i : Z) : Z :=
  if i <? 0 then Z.max (len + i) 0 else Z.min i len.

(** [s.slice(start, end)] on a string seen as a sequence of code units. *)
Definition slice (s : string) (start end_ : Z) : string :=
  let len := Z.of_nat (String.length s) in
  let from := clamp_index len start in
  let to := clamp_index len end_ in
  let span := Z.max (to - from) 0 in
  substring (Z.to_nat from) (Z.to_nat span) s.

End JS.

(** ** The wall controller ([src/App.tsx]) *)

Module Wall.

(** [PhotoData] of the source's type declarations. *)
Record PhotoData := mkPhoto {
  id : string;
  url : string;
  timestamp : Z;
  x : Q;
  y : Q;
  rotation : Q;
  isDeveloping : bool
}.

(** The fields of a [DOMRect] that the application reads. *)
Record DOMRect := mkRect {
  left : Q;
  top : Q;
  width : Q;
  height : Q
}.

(** The two [useState] cells of [App]. *)
Record AppState := mkApp {
  photos : list PhotoData;
  topZIndex : Z
}.

(** [useState<PhotoData[]>([])] and [useState(10)]. *)
Definition initial : AppState := {| photos := []; topZIndex := 10 |}.

(** What [handleTakePhoto] reads from its environment. *)
Record Entropy := mkEntropy {
  randomUUID : string;   (* crypto.randomUUID() *)
  now : Z;               (* Date.now() *)
  random : Q             (* Math.random(), in [0, 1) *)
}.

(** An [<a>] element as [handleDownload] builds it. *)
Record Anchor := mkAnchor {
  href : string;
  download : string
}.

(** The document operations a callback performs, in program order. *)
Inductive DomOp :=
| AppendChild (a : Anchor)
| Click (a : Anchor)
| RemoveChild (a : Anchor).

(** The object literal of [handleTakePhoto]. *)
Definition newPhoto (e : Entropy) (dataUrl : string) (cameraRect : DOMRect)
  : PhotoData :=
  {| id := randomUUID e;
     url := dataUrl;
     timestamp := now e;
     x := (left cameraRect + (width cameraRect / 2) - 100)%Q;
     y := (top cameraRect - 300)%Q;
     rotation := ((random e * 6) - 3)%Q;
     isDeveloping := true |}.

(** [setPhotos(prev => [...prev, newPhoto])] *)
Definition handleTakePhoto (e : Entropy) (dataUrl : string)
    (cameraRect : DOMRect) (s : AppState) : AppState :=
  {| photos := photos s ++ [newPhoto e dataUrl cameraRect];
     topZIndex := topZIndex s |}.

(** [setPhotos(prev => prev.filter(p => p.id !== id))] *)
Definition handleDelete (i : string) (s : AppState) : AppState :=
  {| photos := filter (λ p, id p ≠ i) (photos s);
     topZIndex := topZIndex s |}.

(** The template literal [`instax-${id.slice(0, 8)}.jpg`]. *)
Definition downloadName (i : string) : string :=
  "instax-" +:+ JS.slice i 0 8 +:+ ".jpg".

(** [handleDownload] touches the document only: it calls neither
    [setPhotos] nor [setTopZIndex]. *)
Definition handleDownload (i u : string) (s : AppState)
  : AppState * list DomOp :=
  let link := {| href := u; download := downloadName i |} in
  (s, [AppendChild link; Click link; RemoveChild link]).

(** [setTopZIndex(prev => prev + 1)]; the parameter [id] is not used. *)
Definition handleBringToFront (i : string) (s : AppState) : AppState :=
  {| photos := photos s;
     topZIndex := topZIndex s + 1 |}.

(** The props [App] passes to each [Polaroid]:
    [photos.map((photo, index) => <Polaroid key={photo.id} ...
    zIndex={index + 10} />)]. *)
Record PolaroidProps := mkProps {
  key : string;
  photo : PhotoData;
  zIndex : Z
}.

Definition render (s : AppState) : list PolaroidProps :=
  imap (λ index p,
          {| key := id p; photo := p; zIndex := Z.of_nat index + 10 |})
       (photos s).

(** The stacking layers on screen: the [style={{ zIndex }}] of the cards
    whose identifier is [i]. *)
Definition layersOf (i : string) (s : AppState) : list Z :=
  zIndex <$> filter (λ c, key c = i) (render s).

Definition allLayers (s : AppState) : list Z := zIndex <$> render s.

(** The user-level operations of the wall, and the document effects of
    one operation. *)
Inductive Op :=
| Capture (e : Entropy) (dataUrl : string) (cameraRect : DOMRect)
| Delete (i : string)
| Download (i u : string)
| BringToFront (i : string).

Definition step (o : Op) (s : AppState) : AppState * list DomOp :=
  match o with
  | Capture e d r => (handleTakePhoto e d r s, [])
  | Delete i => (handleDelete i s, [])
  | Download i u => handleDownload i u s
  | BringToFront i => (handleBringToFront i s, [])
  end.

Fixpoint run (os : list Op) (s : AppState) : AppState :=
  match os with
  | [] => s
  | o :: os' => run os' (fst (step o s))
  end.

(** The browser's part of a download: activating an anchor that carries a
    [download] attribute saves the resource at [href] under that name.
    A saved file is the pair (file name, resource). *)
Definition savedFiles (ops : list DomOp) : list (string * string) :=
  omap (λ o, match o with
             | Click a => Some (download a, href a)
             | _ => None
             end) ops.

(** The counter values read after each of a series of pointer-downs. *)
Fixpoint bringAll (ids : list string) (s : AppState) : list Z :=
  match ids with
  | [] => []
  | i :: ids' =>
      let s' := handleBringToFront i s in
      topZIndex s' :: bringAll ids' s'
  end.

End Wall.

(** ** The card ([src/components/Polaroid.tsx]) *)

Module Polaroid.
Import Wall.

(** The component instance: the [developed] cell of [useState(false)],
    the time-out registered by the effect (milliseconds left before it
    fires, if one is pending), the value of the effect's dependency
    [photo.isDeveloping] at its last run, and whether the instance is
    still mounted. *)
Record State := mkState {
  developed : bool;
  timer : option N;
  dep : bool;
  alive : bool
}.

(** The delay passed to [setTimeout]. *)
Definition DELAY : N := 100%N.

(** The first render: [useState(false)], nothing scheduled yet. *)
Definition firstRender (p : PhotoData) : State :=
  {| developed := false; timer := None;
     dep := isDeveloping p; alive := true |}.

(** The body of [useEffect]: schedule [setDeveloped(true)] in the
    developing branch, call it at once in the other. *)
Definition effect (s : State) : State :=
  if dep s
  then {| developed := developed s; timer := Some DELAY;
          dep := dep s; alive := alive s |}
  else {| developed := true; timer := timer s;
          dep := dep s; alive := alive s |}.

(** The clean-up the effect returned at its last run:
    [() => clearTimeout(timer)] in the developing branch, none in the
    other. *)
Definition cleanup (s : State) : State :=
  if dep s
  then {| developed := developed s; timer := None;
          dep := dep s; alive := alive s |}
  else s.

(** Mounting a card: first render, then the effect. *)
Definition mount (p : PhotoData) : State := effect (firstRender p).

Inductive Event :=
| Elapse (ms : N)             (* time passes *)
| Rerender (p : PhotoData)    (* the parent renders the card again *)
| Unmount.                    (* the card leaves the wall *)

Definition elapse (ms : N) (s : State) : State :=
  match timer s with
  | Some r =>
      if (r <=? ms)%N
      then {| developed := true; timer := None;
              dep := dep s; alive := alive s |}
      else {| developed := developed s; timer := Some (r - ms)%N;
              dep := dep s; alive := alive s |}
  | None => s
  end.

(** A new render runs the effect again only when the dependency
    [photo.isDeveloping] changed, after the previous clean-up. *)
Definition rerender (p : PhotoData) (s : State) : State :=
  if bool_decide (isDeveloping p = dep s) then s
  else
    let c := cleanup s in
    effect {| developed := developed c; timer := timer c;
              dep := isDeveloping p; alive := alive c |}.

Definition unmount (s : State) : State :=
  let c := cleanup s in
  {| developed := developed c; timer := timer c;
     dep := dep c; alive := false |}.

(** An unmounted instance receives no further update. *)
Definition step (e : Event) (s : State) : State :=
  if alive s then
    match e with
    | Elapse ms => elapse ms s
    | Rerender p => rerender p s
    | Unmount => unmount s
    end
  else s.

Fixpoint run (es : list Event) (s : State) : State :=
  match es with
  | [] => s
  | e :: es' => run es' (step e s)
  end.

(** The successive values of [developed] along a run, the first one
    included. *)
Fixpoint history (es : list Event) (s : State) : list bool :=
  developed s ::
  match es with
  | [] => []
  | e :: es' => history es' (step e s)
  end.

(** The number of changes of value in a sequence of booleans. *)
Fixpoint flips (l : list bool) : nat :=
  match l with
  | a :: ((b :: _) as l') =>
      ((if bool_decide (a = b) then 0 else 1) + flips l')%nat
  | _ => 0%nat
  end.

(** The time that passes during a sequence of events. *)
Fixpoint elapsed (es : list Event) : N :=
  match es with
  | [] => 0%N
  | Elapse ms :: es' => (ms + elapsed es')%N
  | _ :: es' => elapsed es'
  end.

(** Events of a card that stays on the wall with its photo flagged the
    same way: time passing, and renders that keep [isDeveloping]. *)
Definition keeps (b : bool) (e : Event) : Prop :=
  match e with
  | Elapse _ => True
  | Rerender p => isDeveloping p = b
  | Unmount => False
  end.

(** A live card waiting for its time-out, [r] milliseconds away. *)
Definition waiting (r : N) (s : State) : Prop :=
  developed s = false ∧ timer s = Some r ∧ dep s = true ∧ alive s = true
  ∧ (0 < r)%N.

(** What the [<img>] shows: the clear filter or the blurred one. *)
Inductive Look := Clear | Blurred.

Definition look (s : State) : Look :=
  if developed s then Clear else Blurred.

End Polaroid.

(** ** The capture component (the Camera source file) *)

Module Camera.
Import Wall.

(** The [<video>] element: its intrinsic dimensions ([videoWidth] and
    [videoHeight], both 0 while no stream is attached) and the current
    frame, which the model does not look into. *)
Record Video := mkVideo {
  videoWidth : Z;
  videoHeight : Z;
  frame : string
}.

Definition noStream : Video :=
  {| videoWidth := 0; videoHeight := 0; frame := "" |}.

(** The current transformation matrix of a 2D context,
    [[a c e; b d f; 0 0 1]]. *)
Record Matrix := mkMatrix {
  ma : Q; mb : Q; mc : Q; md : Q; me : Q; mf : Q
}.

Definition identity : Matrix :=
  {| ma := 1; mb := 0; mc := 0; md := 1; me := 0; mf := 0 |}%Q.

(** [context.translate(tx, ty)] and [context.scale(kx, ky)] multiply the
    current matrix on the right. *)
Definition translate (tx ty : Q) (m : Matrix) : Matrix :=
  {| ma := ma m; mb := mb m; mc := mc m; md := md m;
     me := ma m * tx + mc m * ty + me m;
     mf := mb m * tx + md m * ty + mf m |}%Q.

Definition scale (kx ky : Q) (m : Matrix) : Matrix :=
  {| ma := ma m * kx; mb := mb m * kx;
     mc := mc m * ky; md := md m * ky;
     me := me m; mf := mf m |}%Q.

(** Where the matrix sends a point of user space. *)
Definition apply (m : Matrix) (p : Q * Q) : Q * Q :=
  (ma m * fst p + mc m * snd p + me m,
   mb m * fst p + md m * snd p + mf m)%Q.

(** The source rectangle of [drawImage]. *)
Record Crop := mkCrop {
  sourceX : Q;
  sourceY : Q;
  sourceWidth : Q;
  sourceHeight : Q
}.

(** One [drawImage(image, sx, sy, sw, sh, dx, dy, dw, dh)], with the
    matrix in force when it was issued. *)
Record DrawCall := mkDraw {
  image : Video;
  src : Crop;
  dx : Q; dy : Q; dw : Q; dh : Q;
  ctm : Matrix
}.

(** The hidden [<canvas>]: the size of its raster, whether
    [getContext('2d')] hands out a context, the context's matrix and what
    has been drawn since the raster was last cleared. *)
Record Canvas := mkCanvas {
  canvasWidth : Z;
  canvasHeight : Z;
  has2d : bool;
  matrix : Matrix;
  drawn : list DrawCall
}.

(** A canvas element starts 300 by 150. *)
Definition blankCanvas : Canvas :=
  {| canvasWidth := 300; canvasHeight := 150; has2d := true;
     matrix := identity; drawn := [] |}.

(** Assigning [canvas.width] or [canvas.height] clears the raster and
    resets the context. *)
Definition setWidth (w : Z) (c : Canvas) : Canvas :=
  {| canvasWidth := w; canvasHeight := canvasHeight c; has2d := has2d c;
     matrix := identity; drawn := [] |}.

Definition setHeight (h : Z) (c : Canvas) : Canvas :=
  {| canvasWidth := canvasWidth c; canvasHeight := h; has2d := has2d c;
     matrix := identity; drawn := [] |}.

Definition transform (f : Matrix → Matrix) (c : Canvas) : Canvas :=
  {| canvasWidth := canvasWidth c; canvasHeight := canvasHeight c;
     has2d := has2d c; matrix := f (matrix c); drawn := drawn c |}.

Definition drawImage (v : Video) (s : Crop) (x0 y0 w h : Q) (c : Canvas)
  : Canvas :=
  {| canvasWidth := canvasWidth c; canvasHeight := canvasHeight c;
     has2d := has2d c; matrix := matrix c;
     drawn := drawn c ++
              [{| image := v; src := s; dx := x0; dy := y0; dw := w;
                  dh := h; ctm := matrix c |}] |}.

(** [const width = 460; const height = 620;] *)
Definition width : Z := 460.
Definition height : Z := 620.

(** [video.videoWidth / video.videoHeight] and [width / height]. *)
Definition videoRatio (v : Video) : Q :=
  (inject_Z (videoWidth v) / inject_Z (videoHeight v))%Q.

Definition targetRatio : Q := (inject_Z width / inject_Z height)%Q.

(** [a > b] on numbers. *)
Definition gt (a b : Q) : bool := negb (Qle_bool a b).

(** The centre-crop computation of [handleCapture], with its formulas
    evaluated exactly; [Double.crop] below is the same computation with
    every operation rounded as the code's doubles are. *)
Definition crop (v : Video) : Crop :=
  if gt (videoRatio v) targetRatio then
    let sourceHeight := inject_Z (videoHeight v) in
    let sourceWidth := (sourceHeight * targetRatio)%Q in
    {| sourceX := (inject_Z (videoWidth v) - sourceWidth) / 2;
       sourceY := 0;
       sourceWidth := sourceWidth;
       sourceHeight := sourceHeight |}%Q
  else
    let sourceWidth := inject_Z (videoWidth v) in
    let sourceHeight := (sourceWidth / targetRatio)%Q in
    {| sourceX := 0;
       sourceY := (inject_Z (videoHeight v) - sourceHeight) / 2;
       sourceWidth := sourceWidth;
       sourceHeight := sourceHeight |}%Q.

(** What [handleCapture] does to the canvas once it holds a context. *)
Definition paint (v : Video) (c : Canvas) : Canvas :=
  let c := setWidth width c in
  let c := setHeight height c in
  let c := transform (translate (inject_Z width) 0) c in
  let c := transform (scale (-1) 1) c in
  let k := crop v in
  drawImage v k 0 0 (inject_Z width) (inject_Z height) c.

(** A callback registered with [setTimeout]. *)
Inductive Task :=
| FlashOff                                  (* setIsFlashing(false) *)
| Handoff (dataUrl : string) (rect : DOMRect).
                       (* onTakePhoto(dataUrl, rect); setEjectingPhoto(null) *)

(** The promise returned by [getUserMedia]. *)
Inductive Promise := NotRequested | Pending | Settled.

(** What the lens area renders. *)
Inductive Lens := Placeholder | Preview.

(** The component instance: its four state cells, the stream attached to
    the video element, the canvas, the state of the [getUserMedia]
    request and how many such requests were issued, the lines written by
    [console.error], and the pending time-outs (milliseconds left, in
    registration order). *)
Record State := mkState {
  isStreaming : bool;
  permissionError : bool;
  isFlashing : bool;
  ejectingPhoto : option string;
  srcObject : Video;
  canvas : Canvas;
  request : Promise;
  requests : nat;
  console : list string;
  timers : list (N * Task)
}.

(** The conditional in the lens area:
    [permissionError ? <div>Camera OFF</div> : <video ref={videoRef} />]. *)
Definition lens (s : State) : Lens :=
  if permissionError s then Placeholder else Preview.

(** The three refs after a render.  The canvas and the camera body are
    rendered unconditionally; the video element only in the preview
    branch. *)
Definition videoRef (s : State) : option Video :=
  match lens s with
  | Preview => Some (srcObject s)
  | Placeholder => None
  end.

Definition canvasRef (s : State) : option Canvas := Some (canvas s).

(** [cameraBodyRef.current], seen through [getBoundingClientRect()]; the
    layout is the caller's. *)
Definition cameraBodyRef (layout : DOMRect) : option DOMRect := Some layout.

(** Field updates, one per [set...] call of the component. *)
Definition setIsStreaming (b : bool) (s : State) : State :=
  mkState b (permissionError s) (isFlashing s) (ejectingPhoto s)
          (srcObject s) (canvas s) (request s) (requests s) (console s)
          (timers s).

Definition setPermissionError (b : bool) (s : State) : State :=
  mkState (isStreaming s) b (isFlashing s) (ejectingPhoto s)
          (srcObject s) (canvas s) (request s) (requests s) (console s)
          (timers s).

Definition setIsFlashing (b : bool) (s : State) : State :=
  mkState (isStreaming s) (permissionError s) b (ejectingPhoto s)
          (srcObject s) (canvas s) (request s) (requests s) (console s)
          (timers s).

Definition setEjectingPhoto (o : option string) (s : State) : State :=
  mkState (isStreaming s) (permissionError s) (isFlashing s) o
          (srcObject s) (canvas s) (request s) (requests s) (console s)
          (timers s).

Definition setSrcObject (v : Video) (s : State) : State :=
  mkState (isStreaming s) (permissionError s) (isFlashing s)
          (ejectingPhoto s) v (canvas s) (request s) (requests s)
          (console s) (timers s).

Definition setCanvas (c : Canvas) (s : State) : State :=
  mkState (isStreaming s) (permissionError s) (isFlashing s)
          (ejectingPhoto s) (srcObject s) c (request s) (requests s)
          (console s) (timers s).

Definition settle (s : State) : State :=
  mkState (isStreaming s) (permissionError s) (isFlashing s)
          (ejectingPhoto s) (srcObject s) (canvas s) Settled (requests s)
          (console s) (timers s).

Definition consoleError (l : string) (s : State) : State :=
  mkState (isStreaming s) (permissionError s) (isFlashing s)
          (ejectingPhoto s) (srcObject s) (canvas s) (request s)
          (requests s) (console s ++ [l]) (timers s).

Definition setTimeout (t : Task) (ms : N) (s : State) : State :=
  mkState (isStreaming s) (permissionError s) (isFlashing s)
          (ejectingPhoto s) (srcObject s) (canvas s) (request s)
          (requests s) (console s) (timers s ++ [(ms, t)]).

Definition setTimers (ts : list (N * Task)) (s : State) : State :=
  mkState (isStreaming s) (permissionError s) (isFlashing s)
          (ejectingPhoto s) (srcObject s) (canvas s) (request s)
          (requests s) (console s) ts.

(** The instance at its first render: the initial values of the four state
    cells, no stream, no request issued yet. *)
Definition initialRender : State :=
  {| isStreaming := false; permissionError := false; isFlashing := false;
     ejectingPhoto := None; srcObject := noStream; canvas := blankCanvas;
     request := NotRequested; requests := 0; console := []; timers := [] |}.

(** The head of [setupCamera], up to the [await]: one more call of
    [navigator.mediaDevices.getUserMedia], pending until its promise
    settles. *)
Definition setupCamera (s : State) : State :=
  mkState (isStreaming s) (permissionError s) (isFlashing s)
          (ejectingPhoto s) (srcObject s) (canvas s) Pending
          (S (requests s)) (console s) (timers s).

(** The instance once mounted: the first render, then the effect, which
    has an empty dependency list and so runs this once; it calls
    [setupCamera()]. *)
Definition mount : State := setupCamera initialRender.

(** [setupCamera] after the [await]: the [try] branch when the promise is
    fulfilled, the [catch] branch when it is rejected.  A promise settles
    once. *)
Definition resolved (stream : Video) (s : State) : State :=
  match request s with
  | Pending =>
      let s := settle s in
      match videoRef s with
      | Some _ => setIsStreaming true (setSrcObject stream s)
      | None => s
      end
  | _ => s
  end.

Definition rejected (err : string) (s : State) : State :=
  match request s with
  | Pending =>
      let s := settle s in
      setPermissionError true
        (consoleError ("Error accessing camera: " +:+ err) s)
  | _ => s
  end.

Section Capture.

(** [canvas.toDataURL(type, quality)]: the encoder is the browser's. *)
Variable toDataURL : Canvas → string → Q → string.

(** [handleCapture], run by a click on the shutter button while the
    camera body occupies [layout]. *)
Definition handleCapture (layout : DOMRect) (s : State) : State :=
  match videoRef s, canvasRef s, cameraBodyRef layout with
  | Some video, Some canvas, Some body =>
      let s := setIsFlashing true s in
      let s := setTimeout FlashOff 200 s in
      if has2d canvas then
        let canvas := paint video canvas in
        let s := setCanvas canvas s in
        let dataUrl := toDataURL canvas "image/jpeg" 0.9%Q in
        let s := setEjectingPhoto (Some dataUrl) s in
        let rect := body in
        setTimeout (Handoff dataUrl rect) 600 s
      else s
  | _, _, _ => s
  end.

(** Running one time-out callback; a hand-off is a call of the
    [onTakePhoto] prop. *)
Definition fire (t : Task) (s : State) : State * list (string * DOMRect) :=
  match t with
  | FlashOff => (setIsFlashing false s, [])
  | Handoff dataUrl rect => (setEjectingPhoto None s, [(dataUrl, rect)])
  end.

Fixpoint fireAll (ts : list Task) (s : State)
  : State * list (string * DOMRect) :=
  match ts with
  | [] => (s, [])
  | t :: ts' =>
      let '(s1, out1) := fire t s in
      let '(s2, out2) := fireAll ts' s1 in
      (s2, out1 ++ out2)
  end.

(** Time passing: the time-outs that are due run, in registration
    order; the others get closer. *)
Definition elapse (ms : N) (s : State) : State * list (string * DOMRect) :=
  let due := filter (λ t, (fst t <= ms)%N) (timers s) in
  let later := filter (λ t, ¬ (fst t <= ms)%N) (timers s) in
  fireAll (snd <$> due)
          (setTimers (prod_map (λ r, (r - ms)%N) Datatypes.id <$> later) s).

Inductive Event :=
| Resolve (stream : Video)
| Reject (err : string)
| Shutter (layout : DOMRect)
| Elapse (ms : N).

Definition step (e : Event) (s : State) : State * list (string * DOMRect) :=
  match e with
  | Resolve stream => (resolved stream s, [])
  | Reject err => (rejected err s, [])
  | Shutter layout => (handleCapture layout s, [])
  | Elapse ms => elapse ms s
  end.

Fixpoint run (es : list Event) (s : State) : State :=
  match es with
  | [] => s
  | e :: es' => run es' (fst (step e s))
  end.

End Capture.

End Camera.

(** ** The application as a whole *)

Module System.

(** The wall, the camera, and how many times [handleTakePhoto] ran. *)
Record State := mkState {
  wall : Wall.AppState;
  camera : Camera.State;
  taken : nat
}.

Definition initial : State :=
  {| wall := Wall.initial; camera := Camera.mount; taken := 0 |}.

(** What the user can do to a card: press it, or click one of its two
    buttons (the press that comes with a click is an event of its own). *)
Inductive CardEvent :=
| PointerDown (i : string)          (* onFocus *)
| ClickDelete (i : string)          (* onDelete(photo.id) *)
| ClickDownload (i u : string).     (* onDownload(photo.id, photo.url) *)

Definition cardOp (c : CardEvent) : Wall.Op :=
  match c with
  | PointerDown i => Wall.BringToFront i
  | ClickDelete i => Wall.Delete i
  | ClickDownload i u => Wall.Download i u
  end.

Inductive Event :=
| OnCamera (e : Camera.Event)
| OnCard (c : CardEvent).

Section Env.

Variable toDataURL : Camera.Canvas → string → Q → string.

(** What the n-th run of [handleTakePhoto] draws from its
    environment. *)
Variable entropy : nat → Wall.Entropy.

(** The camera's [onTakePhoto] prop is [handleTakePhoto]. *)
Fixpoint deliver (out : list (string * Wall.DOMRect)) (w : Wall.AppState)
    (n : nat) : Wall.AppState * nat :=
  match out with
  | [] => (w, n)
  | (dataUrl, rect) :: out' =>
      deliver out' (Wall.handleTakePhoto (entropy n) dataUrl rect w) (S n)
  end.

Definition step (e : Event) (s : State) : State * list Wall.DomOp :=
  match e with
  | OnCamera ce =>
      let '(c, out) := Camera.step toDataURL ce (camera s) in
      let '(w, n) := deliver out (wall s) (taken s) in
      ({| wall := w; camera := c; taken := n |}, [])
  | OnCard ce =>
      let '(w, ops) := Wall.step (cardOp ce) (wall s) in
      ({| wall := w; camera := camera s; taken := taken s |}, ops)
  end.

Fixpoint run (es : list Event) (s : State) : State :=
  match es with
  | [] => s
  | e :: es' => run es' (fst (step e s))
  end.

End Env.

End System.

(** ** Sample data *)

Module Sample.
Import Wall.

Definition idA : string := "1b9d6bcd-bbfd-4b2d-9b5d-ab8dfbbd4bed".
Definition idB : string := "9c858901-8a57-4791-81fe-4c455b099bc9".
Definition idC : string := "00000000-0000-4000-8000-000000000000".

Definition stillA : string := "data:image/jpeg;base64,/9j/4AAQ".
Definition stillB : string := "data:image/jpeg;base64,/9j/4BBR".

(** The camera body, 340 by 300, near the bottom-left corner. *)
Definition body : DOMRect :=
  {| left := 40; top := 420; width := 340; height := 300 |}%Q.

Definition entropyA : Entropy :=
  {| randomUUID := idA; now := 1700000000000; random := 1 # 4 |}.
Definition entropyB : Entropy :=
  {| randomUUID := idB; now := 1700000005000; random := 5 # 6 |}.

Definition photoA : PhotoData := newPhoto entropyA stillA body.
Definition photoB : PhotoData := newPhoto entropyB stillB body.

(** The wall after two captures. *)
Definition twoCards : AppState :=
  run [Capture entropyA stillA body; Capture entropyB stillB body] initial.

(** A card that is not freshly captured. *)
Definition oldPhoto : PhotoData :=
  {| id := idC; url := stillA; timestamp := 0;
     x := 0; y := 0; rotation := 0; isDeveloping := false |}.

(** A landscape stream and a portrait one. *)
Definition landscape : Camera.Video :=
  {| Camera.videoWidth := 1280; Camera.videoHeight := 720;
     Camera.frame := "frame-1" |}.
Definition portrait : Camera.Video :=
  {| Camera.videoWidth := 480; Camera.videoHeight := 720;
     Camera.frame := "frame-2" |}.

Definition fullHD : Camera.Video :=
  {| Camera.videoWidth := 1920; Camera.videoHeight := 1080;
     Camera.frame := "frame-3" |}.

(** An encoder that only records the size of the raster. *)
Definition toDataURL (c : Camera.Canvas) (type : string) (quality : Q)
  : string :=
  if bool_decide (Camera.canvasWidth c = 460 ∧ Camera.canvasHeight c = 620)
  then "data:image/jpeg;base64,460x620"
  else "data:image/jpeg;base64,other".

Definition entropy (n : nat) : Entropy :=
  match n with
  | O => entropyA
  | _ => entropyB
  end.

End Sample.

(** ** Runs and their effects *)

Module Trace.
Import Wall.

(** The number of pointer-downs among a series of operations. *)
Fixpoint presses (os : list Op) : nat :=
  match os with
  | [] => 0%nat
  | BringToFront _ :: os' => S (presses os')
  | _ :: os' => presses os'
  end.

(** The document operations of a series of wall operations, in order. *)
Fixpoint effects (os : list Op) (s : AppState) : list DomOp :=
  match os with
  | [] => []
  | o :: os' => snd (step o s) ++ effects os' (fst (step o s))
  end.

(** The downloads asked for in a series of operations, as the files they
    should give. *)
Definition requested (os : list Op) : list (string * string) :=
  omap (λ o, match o with
             | Download i u => Some (downloadName i, u)
             | _ => None
             end) os.

(** The identifiers on the wall. *)
Definition ids (s : AppState) : list string := id <$> photos s.

(** What an operation needs for the identifiers to stay distinct: a
    capture must draw an identifier that is not on the wall. *)
Definition fresh (o : Op) (s : AppState) : Prop :=
  match o with
  | Capture e _ _ => randomUUID e ∉ ids s
  | _ => True
  end.

End Trace.

(** ** The buttons of a card *)

Module Card.
Import Wall.

(** The width of a card on screen: [className="absolute w-56 ..."], that
    is 14rem, 224 px at the default root font size.  The [x] of a photo is
    where the left edge of its card is placed. *)
Definition cardWidth : Q := 224.

(** Where the middle of a photo's card falls on the horizontal axis. *)
Definition middle (p : PhotoData) : Q := (x p + cardWidth / 2)%Q.

(** The horizontal centre of a rectangle. *)
Definition centre (r : DOMRect) : Q := (left r + width r / 2)%Q.

(** [onPointerDown={onFocus}], with
    [onFocus={() => handleBringToFront(photo.id)}] from [App]. *)
Definition onPointerDown (c : PolaroidProps) : System.CardEvent :=
  System.PointerDown (id (photo c)).

(** [onClick={(e) => { e.stopPropagation();
    onDownload(photo.id, photo.url); }}] *)
Definition onClickDownload (c : PolaroidProps) : System.CardEvent :=
  System.ClickDownload (id (photo c)) (url (photo c)).

(** [onClick={(e) => { e.stopPropagation(); onDelete(photo.id); }}] *)
Definition onClickDelete (c : PolaroidProps) : System.CardEvent :=
  System.ClickDelete (id (photo c)).

End Card.

(** ** Runs of the camera *)

Module CameraTrace.
Import Wall Camera.

(** The calls of [onTakePhoto] made along a series of events, in order. *)
Fixpoint calls (toDataURL : Canvas → string → Q → string)
    (es : list Event) (s : State) : list (string * DOMRect) :=
  match es with
  | [] => []
  | e :: es' =>
      snd (step toDataURL e s) ++ calls toDataURL es' (fst (step toDataURL e s))
  end.

(** The time a series of pauses adds up to. *)
Fixpoint total (ds : list N) : N :=
  match ds with
  | [] => 0%N
  | d :: ds' => (d + total ds')%N
  end.

(** No hand-off is waiting among the time-outs. *)
Definition idle (s : State) : Prop :=
  Forall (λ t, snd t = FlashOff) (timers s).

(** The call a time-out callback makes, if it makes one. *)
Definition handoffOf (t : Task) : option (string * DOMRect) :=
  match t with
  | Handoff d l => Some (d, l)
  | FlashOff => None
  end.

(** Every time-out is at most 600 ms away, the flash overlay is on only
    while a [FlashOff] is pending, and a photo is ejecting only while a
    hand-off is pending. *)
Definition sound (s : State) : Prop :=
  Forall (λ t, (fst t ≤ 600)%N) (timers s)
  ∧ (isFlashing s = true → ∃ r, (r, FlashOff) ∈ timers s)
  ∧ (∀ d, ejectingPhoto s = Some d →
          ∃ r d' l, (r, Handoff d' l) ∈ timers s).

(** Identifiers that never repeat: the string of [n] strokes. *)
Fixpoint strokes (n : nat) : string :=
  match n with
  | O => ""
  | S n' => String "i" (strokes n')
  end.

(** The identifiers drawn by the first [n] captures, in order. *)
Definition drawnIds (entropy : nat → Entropy) (n : nat) : list string :=
  (λ k, randomUUID (entropy k)) <$> seq 0 n.

Definition entropyOf (n : nat) : Entropy :=
  {| randomUUID := strokes n; now := Z.of_nat n; random := 0 |}.

End CameraTrace.

(** ** Double-precision arithmetic *)

(** JavaScript numbers are IEEE 754 binary64 values, and each arithmetic
    operation returns the exact result rounded to the nearest such value,
    ties to even.  Here a finite double is the rational it denotes, and
    rounding is written out for the normal range (magnitudes between
    2^-1022 and 2^1024, which the pixel quantities of the crop never
    leave): the number is scaled by a power of two to bring it into
    [2^52, 2^53), rounded to an integer, and scaled back. *)

Module Double.

(** The nearest integer, ties to even. *)
Definition half_even (q : Q) : Z :=
  let f := Qfloor q in
  match Qcompare (q - inject_Z f) (1 # 2) with
  | Lt => f
  | Gt => f + 1
  | Eq => if Z.even f then f else f + 1
  end.

(** For a positive [x], the [k] with [2^52 <= x * 2^k < 2^53]. *)
Definition exponent (x : Q) : Z :=
  let k0 := 52 - (Z.log2 (Qnum x) - Z.log2 (Z.pos (Qden x))) in
  if Qle_bool (2 ^ 52) (x * 2 ^ k0) then k0 else k0 + 1.

Definition round_pos (x : Q) : Q :=
  let k := exponent x in
  inject_Z (half_even (x * 2 ^ k)) / 2 ^ k.

(** Rounding to the nearest double. *)
Definition round (x : Q) : Q :=
  let x := Qred x in
  match Qcompare x 0 with
  | Eq => 0
  | Gt => round_pos x
  | Lt => - round_pos (- x)
  end.

(** The unit round-off, 2^-53. *)
Definition u : Q := 1 # 9007199254740992.

(** [a * b], [a / b] and [a - b] on doubles. *)
Definition mul (a b : Q) : Q := round (a * b).
Definition div (a b : Q) : Q := round (a / b).
Definition sub (a b : Q) : Q := round (a - b).

(** [const targetRatio = width / height] and
    [const videoRatio = video.videoWidth / video.videoHeight]; the
    operands are integers below 2^53, which are doubles. *)
Definition targetRatio : Q :=
  div (inject_Z Camera.width) (inject_Z Camera.height).

Definition videoRatio (v : Camera.Video) : Q :=
  div (inject_Z (Camera.videoWidth v)) (inject_Z (Camera.videoHeight v)).

(** The centre-crop computation of [handleCapture], operation by
    operation. *)
Definition crop (v : Camera.Video) : Camera.Crop :=
  if Camera.gt (videoRatio v) targetRatio then
    let sourceHeight := inject_Z (Camera.videoHeight v) in
    let sourceWidth := mul sourceHeight targetRatio in
    {| Camera.sourceX :=
         div (sub (inject_Z (Camera.videoWidth v)) sourceWidth) 2;
       Camera.sourceY := 0;
       Camera.sourceWidth := sourceWidth;
       Camera.sourceHeight := sourceHeight |}
  else
    let sourceWidth := inject_Z (Camera.videoWidth v) in
    let sourceHeight := div sourceWidth targetRatio in
    {| Camera.sourceX := 0;
       Camera.sourceY :=
         div (sub (inject_Z (Camera.videoHeight v)) sourceHeight) 2;
       Camera.sourceWidth := sourceWidth;
       Camera.sourceHeight := sourceHeight |}.

(** The target ratio as a fraction, and the least distance between it and
    the ratio of a frame less than 2^32 high that differs from it. *)
Definition target : Q := 460 # 620.
Definition gap : Q := 1 # 133143986176.

(** The rational a double of the kernel denotes. *)
Definition ofFloat (f : float) : option Q :=
  match Prim2SF f with
  | S754_zero _ => Some 0%Q
  | S754_finite s m e =>
      Some ((if s then -1 else 1) * inject_Z (Z.pos m) * 2 ^ e)%Q
  | _ => None
  end.

(** The wide branch of the crop in the kernel's own binary64 arithmetic:
    [sourceWidth], [sourceX], and the quotient [sourceWidth /
    sourceHeight], for a frame [w] by [h]. *)
Definition wideInFloats (w h : float) : float * float * float :=
  let targetRatio := (460 / 620)%float in
  let sourceHeight := h in
  let sourceWidth := (sourceHeight * targetRatio)%float in
  let sourceX := ((w - sourceWidth) / 2)%float in
  (sourceWidth, sourceX, (sourceWidth / sourceHeight)%float).

End Double.

(** * Properties *)

(** ** Strings *)

Section StringFacts.

Lemma substring_0_length (n : nat) (s : string) :
  String.length (substring 0 n s) = Nat.min n (String.length s).
Proof.
  revert s; induction n as [|n IH]; intros [|c s]; simpl; auto.
Qed.

Lemma substring_0_prefix (n : nat) (s : string) :
  ∃ rest, s = substring 0 n s +:+ rest.
Proof.
  revert s; induction n as [|n IH]; intros [|c s]; simpl.
  - by exists "".
  - by exists (String c s).
  - by exists "".
  - destruct (IH s) as [rest Hrest]. exists rest.
    change (String c s = String c (substring 0 n s +:+ rest)).
    by f_equal.
Qed.

(** [s.slice(0, n)] is the prefix of [s] of length [min n (length s)]. *)
Lemma slice_0_prefix (s : string) (n : nat) :
  ∃ rest, s = JS.slice s 0 (Z.of_nat n) +:+ rest
          ∧ String.length (JS.slice s 0 (Z.of_nat n))
            = Nat.min n (String.length s).
Proof.
  unfold JS.slice, JS.clamp_index.
  replace (0 <? 0) with false by reflexivity.
  replace (Z.of_nat n <? 0) with false by (symmetry; apply Z.ltb_ge; lia).
  replace (Z.to_nat (Z.min 0 (Z.of_nat (String.length s)))) with 0%nat by lia.
  replace (Z.to_nat
             (Z.max (Z.min (Z.of_nat n) (Z.of_nat (String.length s))
                     - Z.min 0 (Z.of_nat (String.length s))) 0))
    with (Nat.min n (String.length s)) by lia.
  destruct (substring_0_prefix (Nat.min n (String.length s)) s) as [rest H].
  exists rest. split; [exact H|].
  rewrite substring_0_length. lia.
Qed.

Example slice_uuid : JS.slice Sample.idA 0 8 = "1b9d6bcd".
Proof. reflexivity. Qed.

Example slice_short : JS.slice "abc" 0 8 = "abc".
Proof. reflexivity. Qed.

Example slice_from_end : JS.slice "instax" (-3) 100 = "tax".
Proof. reflexivity. Qed.

Example downloadName_uuid :
  Wall.downloadName Sample.idA = "instax-1b9d6bcd.jpg".
Proof. reflexivity. Qed.

End StringFacts.

(** ** The wall *)

Section WallFacts.
Import Wall.

Lemma filter_all {A} (P : A → Prop) `{!∀ a, Decision (P a)} (l : list A) :
  (∀ a, a ∈ l → P a) → filter P l = l.
Proof.
  induction l as [|a l IH]; intros HP; [done|].
  rewrite filter_cons_True by (apply HP; left).
  f_equal. apply IH. intros b Hb. apply HP. by right.
Qed.

Lemma sublist_into_filter {A} (P : A → Prop) `{!∀ a, Decision (P a)}
    (k l : list A) :
  k `sublist_of` l → (∀ a, a ∈ k → P a) → k `sublist_of` filter P l.
Proof.
  induction 1 as [|a k l Hkl IH|a k l Hkl IH]; intros HP.
  - constructor.
  - rewrite filter_cons_True by (apply HP; left).
    constructor. apply IH. intros b Hb. apply HP. by right.
  - rewrite filter_cons. destruct (decide (P a)); [constructor|]; by apply IH.
Qed.

Lemma run_app (os1 os2 : list Op) (s : AppState) :
  run (os1 ++ os2) s = run os2 (run os1 s).
Proof. revert s; induction os1 as [|o os1 IH]; intros s; simpl; auto. Qed.

Lemma step_topZIndex_le (o : Op) (s : AppState) :
  topZIndex s ≤ topZIndex (fst (step o s)).
Proof. destruct o; simpl; lia. Qed.

Lemma run_topZIndex_le (os : list Op) (s : AppState) :
  topZIndex s ≤ topZIndex (run os s).
Proof.
  revert s; induction os as [|o os IH]; intros s; simpl; [lia|].
  etransitivity; [apply (step_topZIndex_le o)|apply IH].
Qed.

(** Only pointer-downs move the counter. *)
Lemma step_topZIndex (o : Op) (s : AppState) :
  topZIndex (fst (step o s))
  = match o with BringToFront _ => topZIndex s + 1 | _ => topZIndex s end.
Proof. by destruct o. Qed.

Lemma bringAll_lookup (ids : list string) (s : AppState) (k : nat) :
  (k < length ids)%nat →
  bringAll ids s !! k = Some (topZIndex s + Z.of_nat k + 1).
Proof.
  revert s k; induction ids as [|i ids IH]; intros s k Hk; simpl in *; [lia|].
  destruct k as [|k]; simpl.
  - f_equal. lia.
  - rewrite IH by lia. simpl. f_equal. lia.
Qed.

Lemma bringAll_length (ids : list string) (s : AppState) :
  length (bringAll ids s) = length ids.
Proof. revert s; induction ids as [|i ids IH]; intros s; simpl; auto. Qed.

Lemma bringAll_lower (ids : list string) (s : AppState) (z : Z) :
  z ∈ bringAll ids s → topZIndex s < z.
Proof.
  revert s; induction ids as [|i ids IH]; intros s; simpl.
  - by intros ?%elem_of_nil.
  - intros [->|Hz]%elem_of_cons; simpl; [lia|].
    apply IH in Hz. simpl in Hz. lia.
Qed.

Lemma bringAll_sorted (ids : list string) (s : AppState) :
  StronglySorted Z.lt (bringAll ids s).
Proof.
  revert s; induction ids as [|i ids IH]; intros s; simpl; constructor.
  - apply IH.
  - apply Forall_forall. intros z Hz. apply bringAll_lower in Hz. exact Hz.
Qed.

Lemma sorted_lt_NoDup (l : list Z) : StronglySorted Z.lt l → NoDup l.
Proof.
  induction 1 as [|z l Hs IH Hall]; constructor; [|exact IH].
  intros Hin. rewrite Forall_forall in Hall. specialize (Hall z Hin). lia.
Qed.

(** Where the middle of a new card falls, for a card rendered [w] wide:
    on the rectangle's horizontal centre when [w] is 200, and off it by
    [w / 2 - 100] otherwise. *)
Lemma newPhoto_middle (e : Entropy) (d : string) (r : DOMRect) (w : Q) :
  (x (newPhoto e d r) + w / 2
   == (left r + width r / 2) + (w / 2 - 100))%Q.
Proof. simpl. ring. Qed.

(** The layers on screen depend on the photo list alone. *)
Lemma render_handleBringToFront (i : string) (s : AppState) :
  render (handleBringToFront i s) = render s.
Proof. reflexivity. Qed.

End WallFacts.

(** ** Claims about the wall *)

Section WallClaims.
Import Wall.

(** Claim C1, evaluated on the code.  On a wall of two cards, a
    pointer-down on the first card raises the counter from 10 to 11, but
    the card's stacking layer stays at 10, below the 11 of the second
    card: the layer a card is rendered with is its position in the list
    plus 10, and the counter is never read. *)
Theorem C1_bring_to_front_leaves_layers :
  let s := Sample.twoCards in
  let s' := handleBringToFront Sample.idA s in
  topZIndex s = 10
  ∧ topZIndex s' = 11
  ∧ layersOf Sample.idA s = [10]
  ∧ layersOf Sample.idA s' = [10]
  ∧ allLayers s' = [10; 11].
Proof. vm_compute. repeat split; reflexivity. Qed.

(** Claim C4.  [handleDelete i] never fails and never touches the
    counter.  When no card carries the identifier [i] the state is
    unchanged.  In general the cards left are exactly the cards whose
    identifier is not [i], in their original order: the result is a
    sub-sequence of the former list, holds no card with identifier [i],
    and every sub-sequence of the former list free of [i] is a
    sub-sequence of it. *)
Theorem C4_handleDelete (i : string) (s : AppState) :
  (i ∉ (id <$> photos s) → handleDelete i s = s)
  ∧ topZIndex (handleDelete i s) = topZIndex s
  ∧ (i ∉ (id <$> photos (handleDelete i s)))
  ∧ (∀ p, p ∈ photos (handleDelete i s) ↔ (p ∈ photos s ∧ id p ≠ i))
  ∧ photos (handleDelete i s) `sublist_of` photos s
  ∧ (∀ k, k `sublist_of` photos s → i ∉ (id <$> k) →
          k `sublist_of` photos (handleDelete i s)).
Proof.
  unfold handleDelete; simpl.
  split; [|split; [|split; [|split; [|split]]]].
  - intros Habs. destruct s as [ps z]; simpl in *. f_equal.
    apply filter_all. intros p Hp Heq. apply Habs.
    apply list_elem_of_fmap. by exists p.
  - reflexivity.
  - intros (p & Hid & Hp)%list_elem_of_fmap.
    apply list_elem_of_filter in Hp as [Hne _]. by apply Hne.
  - intros p. rewrite list_elem_of_filter. tauto.
  - apply sublist_filter.
  - intros k Hk Habs. apply sublist_into_filter; [exact Hk|].
    intros p Hp Heq. apply Habs. apply list_elem_of_fmap. by exists p.
Qed.

Lemma C4_handleDelete_witness :
  handleDelete Sample.idC Sample.twoCards = Sample.twoCards
  ∧ [Sample.photoB]
      `sublist_of` photos (handleDelete Sample.idA Sample.twoCards).
Proof.
  split.
  - destruct (C4_handleDelete Sample.idC Sample.twoCards) as [Habsent _].
    apply Habsent. apply (bool_decide_unpack _). vm_compute. exact I.
  - destruct (C4_handleDelete Sample.idA Sample.twoCards)
      as (_ & _ & _ & _ & _ & Hmax).
    apply Hmax.
    + change (photos Sample.twoCards) with [Sample.photoA; Sample.photoB].
      apply sublist_cons. reflexivity.
    + apply (bool_decide_unpack _). vm_compute. exact I.
Defined.

(** Claim C6.  [handleDownload i u] leaves the wall state (photo list
    and counter) as it was, and saves one file: its name is "instax-",
    then the first 8 characters of [i] (all of [i] when it is shorter),
    then ".jpg"; its content is the resource [u], as passed. *)
Theorem C6_handleDownload (i u : string) (s : AppState) :
  fst (handleDownload i u s) = s
  ∧ ∃ first8 rest,
      i = first8 +:+ rest
      ∧ String.length first8 = Nat.min 8 (String.length i)
      ∧ savedFiles (snd (handleDownload i u s))
        = [("instax-" +:+ first8 +:+ ".jpg", u)].
Proof.
  split; [reflexivity|].
  destruct (slice_0_prefix i 8) as (rest & Hpre & Hlen).
  exists (JS.slice i 0 8), rest. auto.
Qed.

(** What [handleTakePhoto] does build.  With [Math.random()] in [0, 1), it
    appends exactly one card after the existing ones, which stay as they
    were, and leaves the counter alone.  The card carries the still; its
    [x] is the horizontal centre of the rectangle less a fixed 100, its [y]
    is the top of the rectangle less a fixed 300, its rotation lies between
    -3 and 3, and it is flagged as developing. *)
Theorem handleTakePhoto_spawn (e : Entropy) (dataUrl : string) (r : DOMRect)
    (s : AppState) :
  (0 <= random e)%Q → (random e < 1)%Q →
  ∃ card,
    photos (handleTakePhoto e dataUrl r s) = photos s ++ [card]
    ∧ length (photos (handleTakePhoto e dataUrl r s))
      = S (length (photos s))
    ∧ topZIndex (handleTakePhoto e dataUrl r s) = topZIndex s
    ∧ url card = dataUrl
    ∧ (x card + 100 == left r + width r / 2)%Q
    ∧ (y card == top r - 300)%Q
    ∧ (-3 <= rotation card)%Q ∧ (rotation card < 3)%Q
    ∧ isDeveloping card = true.
Proof.
  intros H0 H1. exists (newPhoto e dataUrl r). simpl.
  rewrite length_app. simpl.
  repeat split; try reflexivity; try lia; try lra.
Qed.

Lemma handleTakePhoto_spawn_witness :
  ∃ card,
    photos (handleTakePhoto Sample.entropyB Sample.stillB Sample.body
              (handleTakePhoto Sample.entropyA Sample.stillA Sample.body
                 initial))
    = [Sample.photoA] ++ [card]
    ∧ (x card + 100 == 210)%Q
    ∧ (y card == 120)%Q
    ∧ isDeveloping card = true.
Proof.
  destruct (handleTakePhoto_spawn Sample.entropyB Sample.stillB Sample.body
              (handleTakePhoto Sample.entropyA Sample.stillA Sample.body
                 initial))
    as (card & Happ & _ & _ & _ & Hx & Hy & _ & _ & Hdev).
  - vm_compute. discriminate.
  - vm_compute. reflexivity.
  - exists card. split; [exact Happ|]. split; [|split; [|exact Hdev]].
    + rewrite Hx. vm_compute. reflexivity.
    + rewrite Hy. vm_compute. reflexivity.
Defined.

(** Claim C7, evaluated on the code.  The card that [handleTakePhoto]
    appends is not centred on the rectangle: its left edge is put 100 to
    the left of the rectangle's centre, but the card is 224 wide, so its
    middle falls 12 to the right of that centre, whatever the rectangle.
    For the camera body at left 40, 340 wide, the centre is at 210 and the
    middle of the new card at 222. *)
Theorem C7_card_off_centre (e : Entropy) (d : string) (r : DOMRect)
    (s : AppState) :
  photos (handleTakePhoto e d r s) = photos s ++ [newPhoto e d r]
  ∧ (Card.middle (newPhoto e d r) == Card.centre r + 12)%Q
  ∧ ¬ (Card.middle (newPhoto e d r) == Card.centre r)%Q
  ∧ (Card.centre Sample.body == 210)%Q
  ∧ (Card.middle (newPhoto e d Sample.body) == 222)%Q.
Proof.
  assert (H12 : (Card.middle (newPhoto e d r) == Card.centre r + 12)%Q).
  { unfold Card.middle, Card.centre, Card.cardWidth. simpl. field. }
  split; [reflexivity|]. split; [exact H12|]. split; [|split].
  - rewrite H12. intros H.
    assert (H0 : (12 == 0)%Q).
    { apply (Qplus_inj_l _ _ (Card.centre r)). rewrite H. ring. }
    discriminate H0.
  - reflexivity.
  - reflexivity.
Qed.

(** Claim C8.  Each call of [handleBringToFront] raises the counter by
    exactly one; no operation of the wall, and so no sequence of
    operations, lowers it; and the values read after each of N successive
    calls, whatever the identifiers, are N values, the k-th being the
    starting value plus k, hence strictly increasing and pairwise
    distinct. *)
Theorem C8_counter_monotone :
  (∀ i s, topZIndex (handleBringToFront i s) = topZIndex s + 1)
  ∧ (∀ o s, topZIndex s ≤ topZIndex (fst (step o s)))
  ∧ (∀ os s, topZIndex s ≤ topZIndex (run os s))
  ∧ (∀ ids s,
       length (bringAll ids s) = length ids
       ∧ (∀ k, (k < length ids)%nat →
               bringAll ids s !! k = Some (topZIndex s + Z.of_nat k + 1))
       ∧ StronglySorted Z.lt (bringAll ids s)
       ∧ NoDup (bringAll ids s)).
Proof.
  split; [reflexivity|].
  split; [apply step_topZIndex_le|].
  split; [apply run_topZIndex_le|].
  intros ids s.
  split; [apply bringAll_length|].
  split; [intros k; apply bringAll_lookup|].
  split; [apply bringAll_sorted|].
  apply sorted_lt_NoDup, bringAll_sorted.
Qed.

Lemma C8_counter_monotone_witness :
  bringAll [Sample.idA; Sample.idB; Sample.idC] Sample.twoCards !! 2%nat
  = Some 13.
Proof.
  destruct C8_counter_monotone as (_ & _ & _ & Hall).
  destruct (Hall [Sample.idA; Sample.idB; Sample.idC] Sample.twoCards)
    as (_ & Hk & _).
  apply (Hk 2%nat). simpl. lia.
Defined.

(** Claim C10.  [handleBringToFront] does not depend on its argument:
    from one wall state, any two identifiers, whether or not a card
    carries them, give the same state, in which the counter is one higher
    and the photo list (and so what is rendered) is as before. *)
Theorem C10_bring_to_front_ignores_id (i j : string) (s : AppState) :
  handleBringToFront i s = handleBringToFront j s
  ∧ topZIndex (handleBringToFront i s) = topZIndex s + 1
  ∧ photos (handleBringToFront i s) = photos s
  ∧ render (handleBringToFront i s) = render s.
Proof. repeat split. Qed.

End WallClaims.

(** ** The card *)

Section PolaroidFacts.
Import Wall Polaroid.

(** No step takes [developed] back to [false]. *)
Lemma step_developed (e : Event) (s : State) :
  developed s = true → developed (step e s) = true.
Proof.
  intros Hd. unfold step. destruct (alive s); [|exact Hd].
  destruct e as [ms|p|]; simpl.
  - unfold elapse. destruct (timer s) as [r|]; [|exact Hd].
    destruct (r <=? ms)%N; simpl; auto.
  - unfold rerender. case_bool_decide; [exact Hd|].
    unfold effect, cleanup. simpl.
    destruct (isDeveloping p), (dep s); simpl; auto.
  - unfold unmount, cleanup. destruct (dep s); simpl; auto.
Qed.

Lemma run_developed (es : list Event) (s : State) :
  developed s = true → developed (run es s) = true.
Proof.
  revert s; induction es as [|e es IH]; intros s Hd; simpl; [exact Hd|].
  apply IH, step_developed, Hd.
Qed.

Lemma flips_history (es : list Event) (s : State) :
  (flips (history es s) ≤ if developed s then 0 else 1)%nat.
Proof.
  revert s; induction es as [|e es IH]; intros s.
  - simpl. destruct (developed s); lia.
  - specialize (IH (step e s)).
    change (history (e :: es) s)
      with (developed s :: history es (step e s)).
    destruct es as [|e' es];
      (simpl in *;
       pose proof (step_developed e s) as Hmono;
       destruct (developed s), (developed (step e s));
       try (specialize (Hmono eq_refl); discriminate);
       repeat case_bool_decide; try congruence; simpl in *; lia).
Qed.

Lemma run_waiting (es : list Event) (r : N) (s : State) :
  waiting r s → Forall (keeps true) es →
  developed (run es s) = bool_decide (r ≤ elapsed es)%N.
Proof.
  revert r s; induction es as [|e es IH];
    intros r s (Hd & Ht & Hp & Ha & Hr) Hes.
  - simpl. rewrite Hd. symmetry. apply bool_decide_eq_false. lia.
  - apply Forall_cons in Hes as [He Hes]. simpl run. unfold step.
    rewrite Ha. destruct e as [ms|p|]; simpl in He; [| |done].
    + unfold elapse. rewrite Ht. simpl elapsed.
      destruct (r <=? ms)%N eqn:Hle.
      * apply N.leb_le in Hle. rewrite run_developed by reflexivity.
        symmetry. apply bool_decide_eq_true. lia.
      * apply N.leb_gt in Hle.
        rewrite (IH (r - ms)%N) by (unfold waiting; simpl; auto with lia).
        apply bool_decide_ext. lia.
    + unfold rerender. rewrite Hp, He.
      rewrite bool_decide_eq_true_2 by reflexivity.
      simpl elapsed. apply IH; [unfold waiting; auto|exact Hes].
Qed.

End PolaroidFacts.

Section PolaroidClaims.
Import Wall Polaroid.

(** Claim C5, as the code has it.  Every card is first rendered not
    developed, whatever its flag: the cell starts at [useState(false)].  A
    card with [isDeveloping = true] stays so after the effect of its mount
    and, as long as it stays on the wall flagged that way, is developed
    exactly when the fixed delay of 100 ms has passed.  A card with
    [isDeveloping = false] is developed by the effect of its mount, at
    once and with no time-out.  From any state and along any sequence of
    events, [developed] once true stays true; so from the first render on,
    through the mount and any run after it, its value changes at most
    once. *)
Theorem C5_development (p : PhotoData) :
  developed (firstRender p) = false
  ∧ (isDeveloping p = true →
     developed (mount p) = false
     ∧ ∀ es, Forall (keeps true) es →
         developed (run es (mount p))
         = bool_decide (DELAY ≤ elapsed es)%N)
  ∧ (isDeveloping p = false →
     developed (mount p) = true ∧ timer (mount p) = None)
  ∧ (∀ es s, developed s = true → developed (run es s) = true)
  ∧ (∀ es, (flips (history es (mount p)) ≤ 1)%nat)
  ∧ (∀ es,
       (flips (developed (firstRender p) :: history es (mount p)) ≤ 1)%nat).
Proof.
  split; [reflexivity|]. split; [|split; [|split; [|split]]].
  - intros Hp. unfold mount, effect, firstRender; simpl. rewrite Hp.
    split; [reflexivity|].
    intros es Hes. apply run_waiting; [|exact Hes].
    unfold waiting, DELAY; simpl. repeat split; lia.
  - intros Hp. unfold mount, effect, firstRender; simpl. rewrite Hp.
    split; reflexivity.
  - apply run_developed.
  - intros es. pose proof (flips_history es (mount p)) as H.
    destruct (developed (mount p)); lia.
  - intros es. pose proof (flips_history es (mount p)) as H.
    destruct es as [|e es]; simpl in *;
      destruct (developed (mount p)); simpl in *; lia.
Qed.

Lemma C5_development_witness :
  developed (run [Elapse 40; Rerender Sample.photoA; Elapse 60]
                 (mount Sample.photoA)) = true
  ∧ developed (run [Elapse 99] (mount Sample.photoA)) = false
  ∧ developed (mount Sample.oldPhoto) = true.
Proof.
  destruct (C5_development Sample.photoA) as (_ & [_ Hfresh] & _).
  { reflexivity. }
  destruct (C5_development Sample.oldPhoto) as (_ & _ & [Hold _] & _).
  { reflexivity. }
  split; [|split; [|exact Hold]].
  - rewrite Hfresh; [reflexivity|].
    repeat constructor.
  - rewrite Hfresh; [reflexivity|].
    repeat constructor.
Defined.

(** Claim C5 does not hold as stated: a card that is not flagged as
    developing does not start developed.  At its first render, before the
    effect has run, it shows the blurred filter like any other card. *)
Lemma C5_first_render_not_developed :
  isDeveloping Sample.oldPhoto = false
  ∧ developed (firstRender Sample.oldPhoto) = false
  ∧ look (firstRender Sample.oldPhoto) = Blurred
  ∧ ¬ (isDeveloping Sample.oldPhoto = false →
       developed (firstRender Sample.oldPhoto) = true).
Proof.
  repeat split. intros H. specialize (H eq_refl). discriminate.
Qed.

End PolaroidClaims.

(** ** The camera *)

Section CameraFacts.
Import Wall Camera.

Lemma gt_spec (a b : Q) : gt a b = true ↔ (b < a)%Q.
Proof.
  unfold gt. rewrite negb_true_iff, <- not_true_iff_false, Qle_bool_iff.
  split; [apply Qnot_le_lt|apply Qlt_not_le].
Qed.

Lemma inject_Z_pos (z : Z) : 0 < z → (0 < inject_Z z)%Q.
Proof. intros Hz. unfold Qlt; simpl. lia. Qed.

(** [width / height] with the constants written out. *)
Ltac target_ratio :=
  change targetRatio with ((460 # 1) / (620 # 1))%Q in *.

(** The crop rectangle has the target ratio, whichever branch ran. *)
Lemma crop_ratio (v : Video) :
  0 < videoWidth v → 0 < videoHeight v →
  (sourceWidth (crop v) / sourceHeight (crop v) == targetRatio)%Q.
Proof.
  intros Hw%inject_Z_pos Hh%inject_Z_pos.
  unfold crop. destruct (gt (videoRatio v) targetRatio); simpl;
    target_ratio; field; lra.
Qed.

(** The crop rectangle lies inside the frame. *)
Lemma crop_inside (v : Video) :
  0 < videoWidth v → 0 < videoHeight v →
  (0 <= sourceX (crop v)
   ∧ 0 <= sourceY (crop v)
   ∧ sourceX (crop v) + sourceWidth (crop v) <= inject_Z (videoWidth v)
   ∧ sourceY (crop v) + sourceHeight (crop v) <= inject_Z (videoHeight v))%Q.
Proof.
  intros Hw%inject_Z_pos Hh%inject_Z_pos.
  unfold crop, videoRatio.
  set (W := inject_Z (videoWidth v)) in *.
  set (H := inject_Z (videoHeight v)) in *.
  assert (Et : (targetRatio == 23 # 31)%Q) by reflexivity.
  assert (EW : (W == W / H * H)%Q) by (field; lra).
  destruct (gt _ targetRatio) eqn:Hgt; simpl.
  - apply gt_spec in Hgt. rewrite Et in Hgt.
    apply (Qmult_lt_r _ _ H Hh) in Hgt. rewrite <- EW in Hgt.
    target_ratio.
    assert (E : (H * ((460 # 1) / (620 # 1)) == H * (23 # 31))%Q)
      by (field; lra).
    rewrite E. clear EW Et E. clearbody W H.
    unfold Qdiv. change (/ 2)%Q with (1 # 2)%Q. repeat split; lra.
  - apply not_true_iff_false in Hgt. rewrite gt_spec in Hgt.
    apply Qnot_lt_le in Hgt. rewrite Et in Hgt.
    apply (Qmult_le_r _ _ H Hh) in Hgt. rewrite <- EW in Hgt.
    target_ratio.
    assert (E : (W / ((460 # 1) / (620 # 1)) == W * (31 # 23))%Q)
      by (field; lra).
    rewrite E. clear EW Et E. clearbody W H.
    unfold Qdiv. change (/ 2)%Q with (1 # 2)%Q. repeat split; lra.
Qed.


Section WithEncoder.
Variable toDataURL : Canvas → string → Q → string.

Lemma fireAll_keeps (ts : list Task) (s : State) :
  permissionError (fst (fireAll ts s)) = permissionError s
  ∧ requests (fst (fireAll ts s)) = requests s
  ∧ request (fst (fireAll ts s)) = request s
  ∧ console (fst (fireAll ts s)) = console s.
Proof.
  revert s; induction ts as [|t ts IH]; intros s; [done|].
  simpl. destruct (fire t s) as [s1 out1] eqn:Hf.
  specialize (IH s1). destruct (fireAll ts s1) as [s2 out2]. simpl in *.
  destruct t; injection Hf as <- <-; exact IH.
Qed.

(** Nothing but the mount issues a [getUserMedia] request. *)
Lemma step_requests (e : Event) (s : State) :
  requests (fst (step toDataURL e s)) = requests s.
Proof.
  destruct e as [stream|err|layout|ms]; simpl.
  - unfold resolved. destruct (request s); try reflexivity.
    destruct (videoRef (settle s)); reflexivity.
  - unfold rejected. destruct (request s); reflexivity.
  - unfold handleCapture. destruct (videoRef s); [|reflexivity].
    simpl. destruct (has2d (canvas s)); reflexivity.
  - unfold elapse. by rewrite (proj1 (proj2 (fireAll_keeps _ _))).
Qed.

(** Nothing resets [permissionError]. *)
Lemma step_permissionError (e : Event) (s : State) :
  permissionError s = true →
  permissionError (fst (step toDataURL e s)) = true.
Proof.
  intros Hp. destruct e as [stream|err|layout|ms]; simpl.
  - unfold resolved. destruct (request s); try exact Hp.
    unfold videoRef, lens. simpl. rewrite Hp. exact Hp.
  - unfold rejected. destruct (request s); auto.
  - unfold handleCapture, videoRef, lens. rewrite Hp. exact Hp.
  - unfold elapse. by rewrite (proj1 (fireAll_keeps _ _)).
Qed.

Lemma run_after_failure (es : list Event) (s : State) :
  permissionError s = true →
  permissionError (run toDataURL es s) = true
  ∧ requests (run toDataURL es s) = requests s.
Proof.
  revert s; induction es as [|e es IH]; intros s Hp; [done|].
  simpl. destruct (IH (fst (step toDataURL e s))) as [H1 H2].
  { by apply step_permissionError. }
  split; [exact H1|]. by rewrite H2, step_requests.
Qed.

(** With the placeholder on screen the shutter does nothing. *)
Lemma handleCapture_unavailable (layout : DOMRect) (s : State) :
  permissionError s = true → handleCapture toDataURL layout s = s.
Proof.
  intros Hp. unfold handleCapture, videoRef, lens. by rewrite Hp.
Qed.

End WithEncoder.

End CameraFacts.

(** ** Rounding *)

Section DoubleFacts.
Import Double.

Lemma half_even_near (q : Q) :
  (inject_Z (half_even q) - q <= 1 # 2 /\ q - inject_Z (half_even q) <= 1 # 2)%Q.
Proof.
  unfold half_even.
  pose proof (Qfloor_le q) as Hlo. pose proof (Qlt_floor q) as Hhi.
  rewrite inject_Z_plus in Hhi. change (inject_Z 1) with 1%Q in Hhi.
  destruct (Qcompare (q - inject_Z (Qfloor q)) (1 # 2)) eqn:Hc.
  - apply Qeq_alt in Hc.
    destruct (Z.even (Qfloor q)); rewrite ?inject_Z_plus;
      change (inject_Z 1) with 1%Q; split; lra.
  - apply Qlt_alt in Hc. split; lra.
  - apply Qgt_alt in Hc. rewrite inject_Z_plus.
    change (inject_Z 1) with 1%Q. split; lra.
Qed.

Lemma pow2_pos (k : Z) : (0 < 2 ^ k)%Q.
Proof. apply Qpower_0_lt. reflexivity. Qed.

Lemma pow2_plus (a b : Z) : (2 ^ (a + b) == 2 ^ a * 2 ^ b)%Q.
Proof. apply Qpower_plus. discriminate. Qed.

Lemma pow2_Z (a : Z) : 0 <= a -> (inject_Z (2 ^ a) == 2 ^ a)%Q.
Proof. intros Ha. rewrite Zpower_Qpower by exact Ha. reflexivity. Qed.

Lemma exponent_lower (x : Q) : (0 < x)%Q -> (2 ^ 52 <= x * 2 ^ exponent x)%Q.
Proof.
  intros Hx. unfold exponent.
  set (a := Z.log2 (Qnum x)). set (b := Z.log2 (Z.pos (Qden x))).
  destruct (Qle_bool (2 ^ 52) (x * 2 ^ (52 - (a - b)))) eqn:Ht.
  - apply Qle_bool_iff in Ht. exact Ht.
  - clear Ht.
    assert (Hn : 0 < Qnum x) by (destruct x as [n d]; unfold Qlt in Hx; simpl in *; lia).
    assert (Ha : 0 <= a) by apply Z.log2_nonneg.
    assert (Hb : 0 <= b) by apply Z.log2_nonneg.
    destruct (Z.log2_spec (Qnum x) Hn) as [Hna _]. fold a in Hna.
    destruct (Z.log2_spec (Z.pos (Qden x)) eq_refl) as [_ Hdb]. fold b in Hdb.
    replace (52 - (a - b) + 1) with (52 + (b + 1) + - a) by lia.
    rewrite (pow2_plus (52 + (b + 1)) (- a)), (pow2_plus 52 (b + 1)).
    assert (HA : (2 ^ a <= inject_Z (Qnum x))%Q).
    { rewrite <- pow2_Z by lia. rewrite <- Zle_Qle. exact Hna. }
    assert (HB : (inject_Z (Z.pos (Qden x)) <= 2 ^ (b + 1))%Q).
    { rewrite <- pow2_Z by lia. rewrite <- Zle_Qle. lia. }
    assert (Hxe : (x == inject_Z (Qnum x) / inject_Z (Z.pos (Qden x)))%Q).
    { rewrite <- Qmake_Qdiv. destruct x; reflexivity. }
    rewrite Qpower_opp.
    pose proof (pow2_pos a) as Pa. pose proof (pow2_pos (b + 1)) as Pb.
    set (pa := (2 ^ a)%Q) in *. set (pb := (2 ^ (b + 1))%Q) in *.
    assert (Hd : (0 < inject_Z (Z.pos (Qden x)))%Q) by reflexivity.
    set (n := inject_Z (Qnum x)) in *. set (d := inject_Z (Z.pos (Qden x))) in *.
    rewrite Hxe.
    assert (E : (n / d * (2 ^ 52 * pb * / pa) == 2 ^ 52 * ((n / pa) * (pb / d)))%Q).
    { field. split; lra. }
    rewrite E.
    assert (H1 : (1 <= n / pa)%Q) by (apply Qle_shift_div_l; lra).
    assert (H2 : (1 <= pb / d)%Q) by (apply Qle_shift_div_l; lra).
    assert (H3 : (1 * 1 <= (n / pa) * (pb / d))%Q).
    { apply Qmult_le_compat_nonneg; split; lra. }
    assert (P52 : (0 < 2 ^ 52)%Q) by reflexivity.
    set (c := (2 ^ 52)%Q) in *. set (r := (n / pa * (pb / d))%Q) in *.
    nra.
Qed.

Lemma exponent_upper (x : Q) : (0 < x)%Q -> (x * 2 ^ exponent x < 2 ^ 53)%Q.
Proof.
  intros Hx. unfold exponent.
  set (a := Z.log2 (Qnum x)). set (b := Z.log2 (Z.pos (Qden x))).
  destruct (Qle_bool (2 ^ 52) (x * 2 ^ (52 - (a - b)))) eqn:Ht.
  - clear Ht.
    assert (Hn : 0 < Qnum x) by (destruct x as [n d]; unfold Qlt in Hx; simpl in *; lia).
    assert (Ha : 0 <= a) by apply Z.log2_nonneg.
    assert (Hb : 0 <= b) by apply Z.log2_nonneg.
    destruct (Z.log2_spec (Qnum x) Hn) as [_ Hna]. fold a in Hna.
    destruct (Z.log2_spec (Z.pos (Qden x)) eq_refl) as [Hdb _]. fold b in Hdb.
    replace (52 - (a - b)) with (53 + b + - (a + 1)) by lia.
    rewrite (pow2_plus (53 + b) (- (a + 1))), (pow2_plus 53 b).
    assert (HA : (inject_Z (Qnum x) < 2 ^ (a + 1))%Q).
    { rewrite <- pow2_Z by lia. rewrite <- Zlt_Qlt. lia. }
    assert (HB : (2 ^ b <= inject_Z (Z.pos (Qden x)))%Q).
    { rewrite <- pow2_Z by lia. rewrite <- Zle_Qle. exact Hdb. }
    assert (Hxe : (x == inject_Z (Qnum x) / inject_Z (Z.pos (Qden x)))%Q).
    { rewrite <- Qmake_Qdiv. destruct x; reflexivity. }
    rewrite Qpower_opp.
    pose proof (pow2_pos (a + 1)) as Pa. pose proof (pow2_pos b) as Pb.
    set (pa := (2 ^ (a + 1))%Q) in *. set (pb := (2 ^ b)%Q) in *.
    assert (Hd : (0 < inject_Z (Z.pos (Qden x)))%Q) by reflexivity.
    assert (Hn' : (0 < inject_Z (Qnum x))%Q) by (unfold Qlt; simpl; lia).
    set (n := inject_Z (Qnum x)) in *. set (d := inject_Z (Z.pos (Qden x))) in *.
    rewrite Hxe.
    assert (E : (n / d * (2 ^ 53 * pb * / pa) == 2 ^ 53 * ((n / pa) * (pb / d)))%Q).
    { field. split; lra. }
    rewrite E.
    assert (H1 : (n / pa < 1)%Q) by (apply Qlt_shift_div_r; lra).
    assert (H1' : (0 < n / pa)%Q) by (apply Qlt_shift_div_l; lra).
    assert (H2 : (pb / d <= 1)%Q) by (apply Qle_shift_div_r; lra).
    assert (H2' : (0 < pb / d)%Q) by (apply Qlt_shift_div_l; lra).
    assert (P53 : (0 < 2 ^ 53)%Q) by reflexivity.
    set (c := (2 ^ 53)%Q) in *.
    set (r1 := (n / pa)%Q) in *. set (r2 := (pb / d)%Q) in *.
    assert (H3 : (r1 * r2 < 1)%Q) by nra.
    set (r := (r1 * r2)%Q) in *. nra.
  - apply not_true_iff_false in Ht. rewrite Qle_bool_iff in Ht.
    apply Qnot_le_lt in Ht.
    rewrite pow2_plus.
    assert (E : (2 ^ 53 == 2 ^ 52 * 2 ^ 1)%Q) by reflexivity.
    rewrite E. set (y := (x * 2 ^ (52 - (a - b)))%Q) in *.
    assert (E' : (x * (2 ^ (52 - (a - b)) * 2 ^ 1) == y * 2 ^ 1)%Q) by (unfold y; ring).
    rewrite E'. change (2 ^ 1)%Q with 2%Q. lra.
Qed.

Lemma round_pos_near (x : Q) :
  (0 < x)%Q -> (x - u * x <= round_pos x /\ round_pos x <= x + u * x)%Q.
Proof.
  intros Hx. unfold round_pos.
  pose proof (exponent_lower x Hx) as Hlo.
  set (k := exponent x) in *.
  destruct (half_even_near (x * 2 ^ k)) as [H1 H2].
  pose proof (pow2_pos k) as Pk.
  set (p := (2 ^ k)%Q) in *. set (m := inject_Z (half_even (x * p))) in *.
  assert (Hu : (1 # 2 <= u * (x * p))%Q).
  { unfold u. change (2 ^ 52)%Q with (4503599627370496 # 1)%Q in Hlo. lra. }
  split.
  - apply Qle_shift_div_l; [exact Pk|]. nra.
  - apply Qle_shift_div_r; [exact Pk|]. nra.
Qed.

Lemma round_near (x : Q) :
  (Qabs (round x - x) <= u * Qabs x)%Q.
Proof.
  unfold round.
  assert (Hr : (Qred x == x)%Q) by apply Qred_correct.
  set (y := Qred x) in *.
  destruct (Qcompare y 0) eqn:Hc.
  - apply Qeq_alt in Hc. rewrite Hr in Hc. rewrite Hc. vm_compute. discriminate.
  - apply Qlt_alt in Hc.
    assert (Hp : (0 < - y)%Q) by lra.
    destruct (round_pos_near _ Hp) as [H1 H2].
    rewrite (Qabs_neg x) by lra.
    apply Qabs_Qle_condition.
    set (R := round_pos (- y)) in *. unfold u in *. split; lra.
  - apply Qgt_alt in Hc.
    destruct (round_pos_near _ Hc) as [H1 H2].
    rewrite (Qabs_pos x) by lra.
    apply Qabs_Qle_condition.
    set (R := round_pos y) in *. unfold u in *. split; lra.
Qed.

Lemma round_proper (x y : Q) : (x == y)%Q -> round x = round y.
Proof. intros H. unfold round. rewrite (Qred_complete _ _ H). reflexivity. Qed.

Lemma round_nonneg (x : Q) :
  (0 <= x)%Q -> (x - u * x <= round x /\ round x <= x + u * x)%Q.
Proof.
  intros Hx. pose proof (round_near x) as H.
  rewrite (Qabs_pos x) in H by exact Hx.
  apply Qabs_Qle_condition in H. unfold u in *. split; lra.
Qed.

Lemma round_nonpos (x : Q) :
  (x <= 0)%Q -> (x + u * x <= round x /\ round x <= x - u * x)%Q.
Proof.
  intros Hx. pose proof (round_near x) as H.
  rewrite (Qabs_neg x) in H by exact Hx.
  apply Qabs_Qle_condition in H. unfold u in *. split; lra.
Qed.

(* halving then rounding, after a rounded difference *)
Lemma centre_near (a b : Q) :
  (Qabs (div (sub a b) 2 + b / 2 - a / 2) <= 2 * u * Qabs (a - b))%Q.
Proof.
  unfold div, sub. set (y := (a - b)%Q).
  assert (E : (round (round y / 2) + b / 2 - a / 2 == round (round y / 2) - y / 2)%Q)
    by (unfold y; field).
  rewrite E. clear E.
  destruct (Qlt_le_dec y 0) as [Hneg|Hpos].
  - assert (Hy : (y <= 0)%Q) by lra.
    destruct (round_nonpos y Hy) as [A1 A2].
    set (y1 := round y) in *.
    assert (Hy1 : (y1 / 2 <= 0)%Q).
    { unfold Qdiv. change (/ 2)%Q with (1 # 2)%Q. unfold u in *. lra. }
    destruct (round_nonpos _ Hy1) as [B1 B2].
    set (z := round (y1 / 2)) in *.
    rewrite (Qabs_neg y) by exact Hy.
    apply Qabs_Qle_condition.
    unfold Qdiv in *. change (/ 2)%Q with (1 # 2)%Q in *. unfold u in *.
    split; lra.
  - destruct (round_nonneg y Hpos) as [A1 A2].
    set (y1 := round y) in *.
    assert (Hy1 : (0 <= y1 / 2)%Q).
    { unfold Qdiv. change (/ 2)%Q with (1 # 2)%Q. unfold u in *. lra. }
    destruct (round_nonneg _ Hy1) as [B1 B2].
    set (z := round (y1 / 2)) in *.
    rewrite (Qabs_pos y) by exact Hpos.
    apply Qabs_Qle_condition.
    unfold Qdiv in *. change (/ 2)%Q with (1 # 2)%Q in *. unfold u in *.
    split; lra.
Qed.

Lemma targetRatio_near :
  (target - u * target <= targetRatio /\ targetRatio <= target + u * target)%Q.
Proof.
  unfold targetRatio, div, Camera.width, Camera.height.
  assert (E : (inject_Z 460 / inject_Z 620 == target)%Q) by reflexivity.
  assert (P : (0 <= inject_Z 460 / inject_Z 620)%Q) by (rewrite E; discriminate).
  destruct (round_nonneg _ P) as [A1 A2].
  set (t0 := (inject_Z 460 / inject_Z 620)%Q) in *.
  set (T := round t0) in *. unfold target, u in *. split; lra.
Qed.

Lemma ratio_wide (h : Q) :
  (0 < h)%Q -> (Qabs (mul h targetRatio / h - target) <= 4 * u * target)%Q.
Proof.
  intros Hh. destruct targetRatio_near as [T1 T2].
  set (T := targetRatio) in *.
  assert (TP : (0 <= T)%Q) by (unfold target, u in *; lra).
  assert (P1 : ((target - u * target) * h <= h * T)%Q).
  { rewrite (Qmult_comm h T). apply Qmult_le_compat_r; lra. }
  assert (P2 : (h * T <= (target + u * target) * h)%Q).
  { rewrite (Qmult_comm h T). apply Qmult_le_compat_r; lra. }
  assert (PP : (0 <= h * T)%Q) by (apply Qmult_le_0_compat; lra).
  unfold mul. destruct (round_nonneg _ PP) as [A1 A2].
  set (p := (h * T)%Q) in *. set (sw := round p) in *.
  assert (B1 : (sw / h <= target + 4 * u * target)%Q).
  { apply Qle_shift_div_r; [exact Hh|]. unfold target, u in *. lra. }
  assert (B2 : (target - 4 * u * target <= sw / h)%Q).
  { apply Qle_shift_div_l; [exact Hh|]. unfold target, u in *. lra. }
  apply Qabs_Qle_condition. set (q := (sw / h)%Q) in *.
  unfold target, u in *. split; lra.
Qed.

Lemma ratio_tall (w : Q) :
  (0 < w)%Q -> (Qabs (w / div w targetRatio - target) <= 4 * u * target)%Q.
Proof.
  intros Hw. destruct targetRatio_near as [T1 T2].
  set (T := targetRatio) in *.
  assert (TP : (0 < T)%Q) by (unfold target, u in *; lra).
  assert (QP : (0 < w / T)%Q) by (apply Qlt_shift_div_l; lra).
  assert (E : (w == w / T * T)%Q) by (field; lra).
  assert (P1 : (w / T * (target - u * target) <= w / T * T)%Q).
  { rewrite !(Qmult_comm (w / T)). apply Qmult_le_compat_r; lra. }
  assert (P2 : (w / T * T <= w / T * (target + u * target))%Q).
  { rewrite !(Qmult_comm (w / T)). apply Qmult_le_compat_r; lra. }
  rewrite <- E in P1, P2.
  unfold div. assert (QP' : (0 <= w / T)%Q) by lra.
  destruct (round_nonneg _ QP') as [A1 A2].
  set (q := (w / T)%Q) in *. set (sh := round q) in *.
  assert (SP : (0 < sh)%Q) by (unfold u in *; lra).
  assert (B1 : (w / sh <= target + 4 * u * target)%Q).
  { apply Qle_shift_div_r; [exact SP|]. unfold target, u in *. lra. }
  assert (B2 : (target - 4 * u * target <= w / sh)%Q).
  { apply Qle_shift_div_l; [exact SP|]. unfold target, u in *. lra. }
  apply Qabs_Qle_condition. set (z := (w / sh)%Q) in *.
  unfold target, u in *. split; lra.
Qed.

Lemma int_gap (x y : Z) :
  (460 * inject_Z y < 620 * inject_Z x)%Q ->
  (23 * inject_Z y + 1 <= 31 * inject_Z x)%Q.
Proof.
  change 460%Q with (inject_Z 460). change 620%Q with (inject_Z 620).
  rewrite <- !inject_Z_mult, <- Zlt_Qlt. intros Hz.
  assert (Hz' : 23 * y + 1 <= 31 * x) by lia.
  rewrite Zle_Qle, inject_Z_plus, !inject_Z_mult in Hz'. exact Hz'.
Qed.

Lemma int_gap' (x y : Z) :
  (620 * inject_Z x < 460 * inject_Z y)%Q ->
  (31 * inject_Z x + 1 <= 23 * inject_Z y)%Q.
Proof.
  change 460%Q with (inject_Z 460). change 620%Q with (inject_Z 620).
  rewrite <- !inject_Z_mult, <- Zlt_Qlt. intros Hz.
  assert (Hz' : 31 * x + 1 <= 23 * y) by lia.
  rewrite Zle_Qle, inject_Z_plus, !inject_Z_mult in Hz'. exact Hz'.
Qed.

Lemma branch_spec (v : Camera.Video) :
  0 < Camera.videoWidth v -> 0 < Camera.videoHeight v < 2 ^ 32 ->
  (Camera.gt (videoRatio v) targetRatio = true
   <-> (target < inject_Z (Camera.videoWidth v) / inject_Z (Camera.videoHeight v))%Q).
Proof.
  intros Hw [Hh Hh32].
  assert (HW : (0 < inject_Z (Camera.videoWidth v))%Q) by (unfold Qlt; simpl; lia).
  assert (HH : (0 < inject_Z (Camera.videoHeight v))%Q) by (unfold Qlt; simpl; lia).
  assert (HH32 : (inject_Z (Camera.videoHeight v) <= 4294967296)%Q).
  { unfold Qle; simpl. lia. }
  destruct targetRatio_near as [T1 T2].
  unfold Camera.gt. rewrite negb_true_iff, <- not_true_iff_false, Qle_bool_iff.
  unfold videoRatio, div.
  remember (inject_Z (Camera.videoWidth v)) as W eqn:EW.
  remember (inject_Z (Camera.videoHeight v)) as H eqn:EH.
  assert (RP : (0 <= W / H)%Q) by (apply Qle_shift_div_l; lra).
  destruct (round_nonneg _ RP) as [R1 R2].
  assert (E : (W / H * H == W)%Q) by (field; lra).
  destruct (Q_dec target (W / H)) as [[Hlt|Hgt]|Heq].
  - (* wide *)
    split; [intros _; exact Hlt|intros _].
    assert (Hq : (23 * H + 1 <= 31 * W)%Q).
    { pose proof Hlt as Hx. apply (Qmult_lt_r _ _ H HH) in Hx.
      rewrite E in Hx. rewrite EW, EH. apply int_gap.
      rewrite <- EW, <- EH. unfold target in Hx. lra. }
    assert (G : (target + gap <= W / H)%Q).
    { apply Qle_shift_div_l; [exact HH|]. unfold target, gap. lra. }
    set (r := (W / H)%Q) in *. set (R := round r) in *. set (T := targetRatio) in *.
    apply Qlt_not_le. unfold target, gap, u in *. lra.
  - (* tall *)
    split; [intros Hn; exfalso|intros Hc; exfalso; lra].
    assert (Hq : (31 * W + 1 <= 23 * H)%Q).
    { pose proof Hgt as Hx. apply (Qmult_lt_r _ _ H HH) in Hx.
      rewrite E in Hx. rewrite EW, EH. apply int_gap'.
      rewrite <- EW, <- EH. unfold target in Hx. lra. }
    assert (G : (W / H <= target - gap)%Q).
    { apply Qle_shift_div_r; [exact HH|]. unfold target, gap. lra. }
    set (r := (W / H)%Q) in *. set (R := round r) in *. set (T := targetRatio) in *.
    apply Hn. unfold target, gap, u in *. lra.
  - (* exactly the target ratio *)
    split; [intros Hn; exfalso|intros Hc; exfalso; lra].
    apply Hn. unfold targetRatio, div, Camera.width, Camera.height.
    assert (E' : (W / H == inject_Z 460 / inject_Z 620)%Q) by (rewrite <- Heq; reflexivity).
    rewrite (round_proper _ _ E'). apply Qle_refl.
Qed.

End DoubleFacts.

Section CameraClaims.
Import Wall Camera.

Variable toDataURL : Canvas → string → Q → string.

(** Claim C2.  With the preview on screen, a 2D context at hand and a
    stream of positive width and height, [handleCapture] produces a still:
    it is the encoding of the canvas, it is shown as the ejecting photo
    and scheduled for hand-off, and the raster it was encoded from is
    exactly 460 wide and 620 high, filled by a single draw, whatever the
    dimensions of the stream. *)
Theorem C2_capture_dimensions (layout : DOMRect) (s : State) :
  permissionError s = false →
  has2d (canvas s) = true →
  0 < videoWidth (srcObject s) →
  0 < videoHeight (srcObject s) →
  ∃ dataUrl d,
    ejectingPhoto (handleCapture toDataURL layout s) = Some dataUrl
    ∧ dataUrl
      = toDataURL (canvas (handleCapture toDataURL layout s))
                  "image/jpeg" 0.9%Q
    ∧ timers (handleCapture toDataURL layout s)
      = timers s ++ [(200%N, FlashOff); (600%N, Handoff dataUrl layout)]
    ∧ canvasWidth (canvas (handleCapture toDataURL layout s)) = 460
    ∧ canvasHeight (canvas (handleCapture toDataURL layout s)) = 620
    ∧ drawn (canvas (handleCapture toDataURL layout s)) = [d]
    ∧ image d = srcObject s
    ∧ (dx d == 0 ∧ dy d == 0 ∧ dw d == 460 ∧ dh d == 620)%Q.
Proof.
  intros Hp Hc _ _.
  unfold handleCapture, videoRef, lens, canvasRef, cameraBodyRef.
  rewrite Hp, Hc. simpl.
  eexists _, _. rewrite <- app_assoc. simpl.
  repeat split; reflexivity.
Qed.

(** The crop with its formulas evaluated exactly.  For a stream of
    positive width and height: when its width/height ratio exceeds 460/620
    the crop takes the full height of the frame and its horizontal centre
    is the centre of the frame; otherwise it takes the full width and its
    vertical centre is the centre of the frame; either way its
    width/height ratio is 460/620. *)
Theorem crop_exact_arithmetic (v : Video) :
  0 < videoWidth v →
  0 < videoHeight v →
  ((460 # 620 < videoRatio v)%Q →
     (sourceHeight (crop v) == inject_Z (videoHeight v)
      ∧ sourceY (crop v) == 0
      ∧ sourceX (crop v) + sourceWidth (crop v) / 2
        == inject_Z (videoWidth v) / 2)%Q)
  ∧ (¬ (460 # 620 < videoRatio v)%Q →
     (sourceWidth (crop v) == inject_Z (videoWidth v)
      ∧ sourceX (crop v) == 0
      ∧ sourceY (crop v) + sourceHeight (crop v) / 2
        == inject_Z (videoHeight v) / 2)%Q)
  ∧ (sourceWidth (crop v) / sourceHeight (crop v) == 460 # 620)%Q.
Proof.
  intros Hw Hh.
  assert (Et : (targetRatio == 460 # 620)%Q) by reflexivity.
  split; [|split].
  - intros Hgt. rewrite <- Et in Hgt. apply gt_spec in Hgt.
    unfold crop. rewrite Hgt. simpl.
    repeat split; try reflexivity. field.
  - intros Hle. rewrite <- Et, <- gt_spec in Hle.
    apply not_true_is_false in Hle.
    unfold crop. rewrite Hle. simpl.
    repeat split; try reflexivity. field. discriminate.
  - rewrite <- Et. by apply crop_ratio.
Qed.

Lemma crop_exact_arithmetic_witness :
  (sourceHeight (crop Sample.landscape) == 720
   ∧ sourceX (crop Sample.landscape)
     + sourceWidth (crop Sample.landscape) / 2 == 640)%Q
  ∧ (sourceWidth (crop Sample.portrait) == 480
     ∧ sourceY (crop Sample.portrait)
       + sourceHeight (crop Sample.portrait) / 2 == 360)%Q.
Proof.
  destruct (crop_exact_arithmetic Sample.landscape) as (Hwide & _ & _);
    [reflexivity|reflexivity|].
  destruct (crop_exact_arithmetic Sample.portrait) as (_ & Htall & _);
    [reflexivity|reflexivity|].
  split.
  - destruct Hwide as (Hh & _ & Hc); [reflexivity|].
    split; [rewrite Hh|rewrite Hc]; reflexivity.
  - destruct Htall as (Hw & _ & Hc); [vm_compute; discriminate|].
    split; [rewrite Hw|rewrite Hc]; reflexivity.
Defined.

(** Claim C3, as the code has it, in doubles.  For a stream whose width
    and height are positive (and below 2^32, as [videoWidth] and
    [videoHeight] are): when its width/height ratio exceeds 460/620 the
    code takes the wide branch, the crop has the full height of the frame
    and starts at its top, and its horizontal centre is the centre of the
    frame up to the rounding of one subtraction; otherwise the crop has
    the full width of the frame and starts at its left, and its vertical
    centre is the centre of the frame up to the same rounding.  Either way
    its width/height ratio is 460/620 up to rounding, within a relative
    error of 2^-51, and not exactly. *)
Theorem C3_centre_crop (v : Video) :
  0 < videoWidth v < 2 ^ 32 →
  0 < videoHeight v < 2 ^ 32 →
  ((460 # 620 < inject_Z (videoWidth v) / inject_Z (videoHeight v))%Q →
     gt (Double.videoRatio v) Double.targetRatio = true
     ∧ sourceHeight (Double.crop v) = inject_Z (videoHeight v)
     ∧ sourceY (Double.crop v) = 0%Q
     ∧ (Qabs (sourceX (Double.crop v) + sourceWidth (Double.crop v) / 2
              - inject_Z (videoWidth v) / 2)
        <= 2 * Double.u
           * Qabs (inject_Z (videoWidth v) - sourceWidth (Double.crop v)))%Q)
  ∧ (¬ (460 # 620 < inject_Z (videoWidth v) / inject_Z (videoHeight v))%Q →
     gt (Double.videoRatio v) Double.targetRatio = false
     ∧ sourceWidth (Double.crop v) = inject_Z (videoWidth v)
     ∧ sourceX (Double.crop v) = 0%Q
     ∧ (Qabs (sourceY (Double.crop v) + sourceHeight (Double.crop v) / 2
              - inject_Z (videoHeight v) / 2)
        <= 2 * Double.u
           * Qabs (inject_Z (videoHeight v)
                   - sourceHeight (Double.crop v)))%Q)
  ∧ (Qabs (sourceWidth (Double.crop v) / sourceHeight (Double.crop v)
           - (460 # 620))
     <= 4 * Double.u * (460 # 620))%Q.
Proof.
  intros [Hw Hw32] Hh.
  pose proof (branch_spec v Hw Hh) as Hbranch.
  assert (HW : (0 < inject_Z (videoWidth v))%Q) by (unfold Qlt; simpl; lia).
  assert (HH : (0 < inject_Z (videoHeight v))%Q)
    by (unfold Qlt; simpl; lia).
  split; [|split].
  - intros Hwide. apply Hbranch in Hwide.
    unfold Double.crop. rewrite Hwide.
    cbn [sourceX sourceY sourceWidth sourceHeight].
    split; [reflexivity|]. split; [reflexivity|]. split; [reflexivity|].
    apply centre_near.
  - intros Htall.
    assert (Hf : gt (Double.videoRatio v) Double.targetRatio = false).
    { apply not_true_is_false. intros Ht. by apply Htall, Hbranch. }
    unfold Double.crop. rewrite Hf.
    cbn [sourceX sourceY sourceWidth sourceHeight].
    split; [reflexivity|]. split; [reflexivity|]. split; [reflexivity|].
    apply centre_near.
  - unfold Double.crop.
    destruct (gt (Double.videoRatio v) Double.targetRatio);
      cbn [sourceX sourceY sourceWidth sourceHeight].
    + by apply ratio_wide.
    + by apply ratio_tall.
Qed.

Lemma C3_centre_crop_witness :
  sourceHeight (Double.crop Sample.landscape) = 720%Q
  ∧ sourceWidth (Double.crop Sample.portrait) = 480%Q
  ∧ (Qabs (sourceWidth (Double.crop Sample.landscape)
           / sourceHeight (Double.crop Sample.landscape) - (460 # 620))
     <= 4 * Double.u * (460 # 620))%Q.
Proof.
  destruct (C3_centre_crop Sample.landscape) as (Hwide & _ & Hratio);
    [split; reflexivity|split; reflexivity|].
  destruct (C3_centre_crop Sample.portrait) as (_ & Htall & _);
    [split; reflexivity|split; reflexivity|].
  destruct Hwide as (_ & Hh & _); [reflexivity|].
  destruct Htall as (_ & Hw & _); [vm_compute; discriminate|].
  split; [exact Hh|]. split; [exact Hw|exact Hratio].
Defined.

(** Claim C3 does not hold as stated: at 1280 by 720 the stream is wider
    than the target, the code computes a crop 534.1935483870968 wide and
    720 high, and the ratio of the two is not 460/620, whether the quotient
    is taken exactly or in doubles, where it is 0.7419354838709679 against
    0.7419354838709677 for [targetRatio]. *)
Lemma C3_ratio_rounded :
  (460 # 620 < videoRatio Sample.landscape)%Q
  ∧ (sourceWidth (Double.crop Sample.landscape)
     == 2349408071738137 # 4398046511104)%Q
  ∧ (sourceHeight (Double.crop Sample.landscape) == 720)%Q
  ∧ ¬ (sourceWidth (Double.crop Sample.landscape)
       / sourceHeight (Double.crop Sample.landscape) == 460 # 620)%Q
  ∧ (Double.div (sourceWidth (Double.crop Sample.landscape))
       (sourceHeight (Double.crop Sample.landscape))
     == 6682760737388479 # 9007199254740992)%Q
  ∧ (Double.targetRatio == 6682760737388478 # 9007199254740992)%Q
  ∧ ¬ (Double.div (sourceWidth (Double.crop Sample.landscape))
         (sourceHeight (Double.crop Sample.landscape))
       == Double.targetRatio)%Q.
Proof.
  split; [reflexivity|].
  split; [vm_compute; reflexivity|].
  split; [vm_compute; reflexivity|].
  split; [intros H; vm_compute in H; discriminate|].
  split; [vm_compute; reflexivity|].
  split; [vm_compute; reflexivity|].
  intros H; vm_compute in H; discriminate.
Qed.

(** The kernel's own binary64 arithmetic gives the same crop at 1280 by
    720 and at 1920 by 1080 as [Double.crop] does. *)
Example kernel_doubles_agree :
  let '(sw, sx, ratio) := Double.wideInFloats 1280 720 in
  (option_map Qred (Double.ofFloat sw)
   = Some (Qred (sourceWidth (Double.crop Sample.landscape)))
   ∧ option_map Qred (Double.ofFloat sx)
     = Some (Qred (sourceX (Double.crop Sample.landscape)))
   ∧ option_map Qred (Double.ofFloat ratio)
     = Some (Qred (Double.div (sourceWidth (Double.crop Sample.landscape))
                     (sourceHeight (Double.crop Sample.landscape)))))
  ∧ let '(sw', sx', _) := Double.wideInFloats 1920 1080 in
    option_map Qred (Double.ofFloat sw')
    = Some (Qred (sourceWidth (Double.crop Sample.fullHD)))
    ∧ option_map Qred (Double.ofFloat sx')
      = Some (Qred (sourceX (Double.crop Sample.fullHD))).
Proof. vm_compute. repeat split; reflexivity. Qed.

(** At the usual sizes the subtraction is exact and so is the centring. *)
Example centring_exact_at_usual_sizes :
  (sourceX (Double.crop Sample.landscape)
   + sourceWidth (Double.crop Sample.landscape) / 2 == 640)%Q
  ∧ (sourceX (Double.crop Sample.fullHD)
     + sourceWidth (Double.crop Sample.fullHD) / 2 == 960)%Q
  ∧ (sourceY (Double.crop Sample.portrait)
     + sourceHeight (Double.crop Sample.portrait) / 2 == 360)%Q.
Proof. vm_compute. repeat split; reflexivity. Qed.

(** It is not at every size: at 209 by 76 the difference
    [videoWidth - sourceWidth] is rounded, and the centre of the crop is
    off the centre of the frame by that rounding. *)
Example centring_rounded_at_209_by_76 :
  ¬ (sourceX (Double.crop {| videoWidth := 209; videoHeight := 76;
                             frame := "f" |})
     + sourceWidth (Double.crop {| videoWidth := 209; videoHeight := 76;
                                   frame := "f" |}) / 2 == 209 / 2)%Q.
Proof. intros H. vm_compute in H. discriminate. Qed.

End CameraClaims.

Lemma C2_capture_dimensions_witness :
  Camera.canvasWidth
    (Camera.canvas
       (Camera.handleCapture Sample.toDataURL Sample.body
          (Camera.resolved Sample.landscape Camera.mount))) = 460
  ∧ Camera.canvasHeight
      (Camera.canvas
         (Camera.handleCapture Sample.toDataURL Sample.body
            (Camera.resolved Sample.landscape Camera.mount))) = 620.
Proof.
  destruct (C2_capture_dimensions Sample.toDataURL Sample.body
              (Camera.resolved Sample.landscape Camera.mount))
    as (dataUrl & d & _ & _ & _ & Hw & Hh & _);
    [reflexivity|reflexivity|reflexivity|reflexivity|].
  split; [exact Hw|exact Hh].
Defined.

(** ** The application as a whole *)

Section SystemFacts.
Import Wall Camera.

Variable toDataURL : Canvas → string → Q → string.
Variable entropy : nat → Entropy.

Lemma system_step_camera (e : System.Event) (st : System.State) :
  System.camera (fst (System.step toDataURL entropy e st))
  = match e with
    | System.OnCamera ce => fst (step toDataURL ce (System.camera st))
    | System.OnCard _ => System.camera st
    end.
Proof.
  destruct e as [ce|c]; simpl.
  - destruct (step toDataURL ce (System.camera st)) as [c out].
    by destruct (System.deliver entropy out (System.wall st)
                   (System.taken st)).
  - by destruct (Wall.step (System.cardOp c) (System.wall st)).
Qed.

(** A press or a click on a card acts on the wall as the callback does,
    whatever the state of the camera. *)
Lemma system_step_card (c : System.CardEvent) (st : System.State) :
  System.wall (fst (System.step toDataURL entropy (System.OnCard c) st))
  = fst (Wall.step (System.cardOp c) (System.wall st))
  ∧ snd (System.step toDataURL entropy (System.OnCard c) st)
    = snd (Wall.step (System.cardOp c) (System.wall st)).
Proof.
  simpl. by destruct (Wall.step (System.cardOp c) (System.wall st)).
Qed.

Lemma system_run_after_failure (es : list System.Event)
    (st : System.State) :
  permissionError (System.camera st) = true →
  permissionError (System.camera (System.run toDataURL entropy es st))
  = true
  ∧ requests (System.camera (System.run toDataURL entropy es st))
    = requests (System.camera st).
Proof.
  revert st; induction es as [|e es IH]; intros st Hp; [done|].
  simpl.
  assert (Hstep :
    permissionError
      (System.camera (fst (System.step toDataURL entropy e st))) = true
    ∧ requests (System.camera (fst (System.step toDataURL entropy e st)))
      = requests (System.camera st)).
  { rewrite system_step_camera. destruct e as [ce|c]; [|done].
    split; [by apply step_permissionError|apply step_requests]. }
  destruct Hstep as [Hp' Hr'].
  destruct (IH _ Hp') as [H1 H2]. split; [exact H1|congruence].
Qed.

Lemma fireAll_stream (ts : list Task) (s : State) :
  srcObject (fst (fireAll ts s)) = srcObject s
  ∧ isStreaming (fst (fireAll ts s)) = isStreaming s.
Proof.
  revert s; induction ts as [|t ts IH]; intros s; [done|].
  simpl. destruct (fire t s) as [s1 out1] eqn:Hf.
  specialize (IH s1). destruct (fireAll ts s1) as [s2 out2]. simpl in *.
  destruct t; injection Hf as <- <-; exact IH.
Qed.

Lemma settled_step (e : System.Event) (st : System.State) :
  request (System.camera st) = Settled →
  request (System.camera (fst (System.step toDataURL entropy e st)))
  = Settled
  ∧ srcObject (System.camera (fst (System.step toDataURL entropy e st)))
    = srcObject (System.camera st)
  ∧ isStreaming (System.camera (fst (System.step toDataURL entropy e st)))
    = isStreaming (System.camera st).
Proof.
  intros Hs. rewrite system_step_camera. destruct e as [ce|c]; [|done].
  destruct ce as [stream|err|layout|ms]; simpl.
  - unfold resolved. by rewrite Hs.
  - unfold rejected. by rewrite Hs.
  - unfold handleCapture, canvasRef, cameraBodyRef.
    destruct (videoRef (System.camera st)); [|done].
    by destruct (has2d (canvas (System.camera st))).
  - unfold elapse.
    rewrite (proj1 (proj2 (proj2 (fireAll_keeps _ _)))).
    rewrite (proj1 (fireAll_stream _ _)), (proj2 (fireAll_stream _ _)).
    by simpl.
Qed.

Lemma settled_run (es : list System.Event) (st : System.State) :
  request (System.camera st) = Settled →
  request (System.camera (System.run toDataURL entropy es st)) = Settled
  ∧ srcObject (System.camera (System.run toDataURL entropy es st))
    = srcObject (System.camera st)
  ∧ isStreaming (System.camera (System.run toDataURL entropy es st))
    = isStreaming (System.camera st).
Proof.
  revert st; induction es as [|e es IH]; intros st Hs; [done|].
  simpl. destruct (settled_step e st Hs) as (H1 & H2 & H3).
  destruct (IH _ H1) as (H4 & H5 & H6).
  split; [exact H4|]. split; congruence.
Qed.

(** Claim C9.  The camera issues one [getUserMedia] request, when it is
    mounted.  When that request is rejected, the camera records the error
    on the console, sets [permissionError] and renders the placeholder; the
    rejection is caught there: the wall is as it was and nothing else
    happens.  From then on, whatever the events, the placeholder stays, the
    request stays settled and no further one is issued, no stream is ever
    attached, and the rest of the application works: a press on a card runs
    [handleBringToFront], a click on its delete button runs [handleDelete],
    and a click on its download button saves the file and leaves the wall
    alone. *)
Theorem C9_device_unavailable (err : string) (st : System.State) :
  request (System.camera st) = Pending →
  let failed :=
    fst (System.step toDataURL entropy (System.OnCamera (Reject err)) st) in
  requests mount = 1%nat
  ∧ permissionError (System.camera failed) = true
  ∧ lens (System.camera failed) = Placeholder
  ∧ console (System.camera failed)
    = console (System.camera st) ++ ["Error accessing camera: " +:+ err]
  ∧ System.wall failed = System.wall st
  ∧ snd (System.step toDataURL entropy (System.OnCamera (Reject err)) st)
    = []
  ∧ ∀ es : list System.Event,
      let later := System.run toDataURL entropy es failed in
      lens (System.camera later) = Placeholder
      ∧ requests (System.camera later) = requests (System.camera st)
      ∧ request (System.camera later) = Settled
      ∧ srcObject (System.camera later) = srcObject (System.camera st)
      ∧ isStreaming (System.camera later) = isStreaming (System.camera st)
      ∧ (∀ i,
           System.wall
             (fst (System.step toDataURL entropy
                     (System.OnCard (System.PointerDown i)) later))
           = handleBringToFront i (System.wall later))
      ∧ (∀ i,
           System.wall
             (fst (System.step toDataURL entropy
                     (System.OnCard (System.ClickDelete i)) later))
           = handleDelete i (System.wall later))
      ∧ (∀ i u,
           System.wall
             (fst (System.step toDataURL entropy
                     (System.OnCard (System.ClickDownload i u)) later))
           = System.wall later
           ∧ savedFiles
               (snd (System.step toDataURL entropy
                       (System.OnCard (System.ClickDownload i u)) later))
             = [(downloadName i, u)]).
Proof.
  intros Hpending failed.
  assert (Hcam : System.camera failed = rejected err (System.camera st))
    by reflexivity.
  assert (Hp : permissionError (System.camera failed) = true).
  { rewrite Hcam. unfold rejected. by rewrite Hpending. }
  assert (Hs : request (System.camera failed) = Settled).
  { rewrite Hcam. unfold rejected. by rewrite Hpending. }
  assert (Hsame : srcObject (System.camera failed)
                  = srcObject (System.camera st)
                  ∧ isStreaming (System.camera failed)
                    = isStreaming (System.camera st)
                  ∧ requests (System.camera failed)
                    = requests (System.camera st)).
  { rewrite Hcam. unfold rejected. by rewrite Hpending. }
  destruct Hsame as (Hsrc & Hstr & Hreq).
  split; [reflexivity|].
  split; [exact Hp|].
  split; [unfold lens; by rewrite Hp|].
  split; [rewrite Hcam; unfold rejected; by rewrite Hpending|].
  split; [reflexivity|].
  split; [reflexivity|].
  intros es later. subst later.
  destruct (system_run_after_failure es failed Hp) as [Hp' Hr'].
  destruct (settled_run es failed Hs) as (Hs' & Hsrc' & Hstr').
  split; [unfold lens; by rewrite Hp'|].
  split; [congruence|].
  split; [exact Hs'|].
  split; [congruence|].
  split; [congruence|].
  split; [reflexivity|].
  split; [reflexivity|].
  intros i u. split; reflexivity.
Qed.

End SystemFacts.

Lemma C9_device_unavailable_witness :
  Camera.lens
    (System.camera
       (System.run Sample.toDataURL Sample.entropy
          [System.OnCamera (Camera.Shutter Sample.body);
           System.OnCamera (Camera.Resolve Sample.landscape);
           System.OnCamera (Camera.Elapse 600);
           System.OnCard (System.PointerDown Sample.idA)]
          (fst (System.step Sample.toDataURL Sample.entropy
                  (System.OnCamera (Camera.Reject "NotAllowedError"))
                  System.initial))))
  = Camera.Placeholder.
Proof.
  destruct (C9_device_unavailable Sample.toDataURL Sample.entropy
              "NotAllowedError" System.initial)
    as (_ & _ & _ & _ & _ & _ & Hafter); [reflexivity|].
  apply (Hafter [System.OnCamera (Camera.Shutter Sample.body);
                 System.OnCamera (Camera.Resolve Sample.landscape);
                 System.OnCamera (Camera.Elapse 600);
                 System.OnCard (System.PointerDown Sample.idA)]).
Defined.

(** A capture from end to end: the stream is granted, the shutter is
    pressed, and 600 ms later the wall holds exactly one card, flagged as
    developing, carrying the still of the 460 by 620 raster; until then the
    wall is empty. *)
Example capture_scenario :
  let pressed :=
    System.run Sample.toDataURL Sample.entropy
      [System.OnCamera (Camera.Resolve Sample.landscape);
       System.OnCamera (Camera.Shutter Sample.body);
       System.OnCamera (Camera.Elapse 599)] System.initial in
  let handed :=
    System.run Sample.toDataURL Sample.entropy
      [System.OnCamera (Camera.Elapse 1)] pressed in
  Wall.photos (System.wall pressed) = []
  ∧ Camera.isFlashing (System.camera pressed) = false
  ∧ (Wall.url <$> Wall.photos (System.wall handed))
    = ["data:image/jpeg;base64,460x620"]
  ∧ (Wall.isDeveloping <$> Wall.photos (System.wall handed)) = [true]
  ∧ Camera.ejectingPhoto (System.camera handed) = None
  ∧ Camera.timers (System.camera handed) = [].
Proof. vm_compute. repeat split; reflexivity. Qed.

(** * Further properties *)

(** ** The wall: how the callbacks compose *)

Section WallMore.
Import Wall Trace.

Lemma filter_swap {A} (P Q : A → Prop) `{!∀ a, Decision (P a)}
    `{!∀ a, Decision (Q a)} (l : list A) :
  filter P (filter Q l) = filter Q (filter P l).
Proof.
  induction l as [|a l IH]; [done|].
  rewrite !filter_cons.
  destruct (decide (Q a)), (decide (P a));
    rewrite ?filter_cons_True, ?filter_cons_False by done; congruence.
Qed.

Lemma filter_again {A} (P : A → Prop) `{!∀ a, Decision (P a)} (l : list A) :
  filter P (filter P l) = filter P l.
Proof. apply filter_all. by intros a [? _]%list_elem_of_filter. Qed.

(** Deleting twice is deleting once, and the order in which two
    identifiers are deleted does not matter. *)
Theorem handleDelete_idempotent_commutes (i j : string) (s : AppState) :
  handleDelete i (handleDelete i s) = handleDelete i s
  ∧ handleDelete i (handleDelete j s) = handleDelete j (handleDelete i s).
Proof.
  unfold handleDelete; simpl. split; f_equal.
  - apply filter_again.
  - apply filter_swap.
Qed.

(** Capturing a photo whose identifier is not on the wall and deleting it
    again gives back the state before the capture. *)
Theorem handleDelete_undoes_capture (e : Entropy) (d : string) (r : DOMRect)
    (s : AppState) :
  randomUUID e ∉ ids s →
  handleDelete (randomUUID e) (handleTakePhoto e d r s) = s.
Proof.
  intros Hfresh. destruct s as [ps z]. unfold handleDelete; simpl. f_equal.
  rewrite filter_app, filter_cons_False, filter_nil, app_nil_r
    by (simpl; auto).
  apply filter_all. intros p Hp Heq. apply Hfresh.
  apply list_elem_of_fmap. by exists p.
Qed.

Lemma handleDelete_undoes_capture_witness :
  handleDelete Sample.idB Sample.twoCards
  = handleTakePhoto Sample.entropyA Sample.stillA Sample.body initial.
Proof.
  apply (handleDelete_undoes_capture Sample.entropyB Sample.stillB Sample.body
           (handleTakePhoto Sample.entropyA Sample.stillA Sample.body
              initial)).
  apply (bool_decide_unpack _). vm_compute. exact I.
Defined.

Lemma allLayers_seqZ (s : AppState) :
  allLayers s = seqZ 10 (Z.of_nat (length (photos s))).
Proof.
  apply list_eq. intros k. unfold allLayers, render.
  rewrite list_lookup_fmap, list_lookup_imap.
  destruct (photos s !! k) as [p|] eqn:Hk; simpl.
  - apply lookup_lt_Some in Hk.
    rewrite lookup_seqZ_lt by lia. f_equal. lia.
  - apply lookup_ge_None in Hk. symmetry. apply lookup_seqZ_ge. lia.
Qed.

Lemma render_lookup (s : AppState) (k : nat) :
  render s !! k
  = (λ p, {| key := id p; photo := p; zIndex := Z.of_nat k + 10 |})
      <$> photos s !! k.
Proof. unfold render. apply list_lookup_imap. Qed.

(** A new card comes on top: the cards already on the wall are rendered as
    before, and the new one gets a layer above all of theirs. *)
Theorem new_card_on_top (e : Entropy) (d : string) (r : DOMRect)
    (s : AppState) :
  render (handleTakePhoto e d r s)
  = render s
    ++ [{| key := randomUUID e; photo := newPhoto e d r;
           zIndex := Z.of_nat (length (photos s)) + 10 |}]
  ∧ Forall (λ z, z < Z.of_nat (length (photos s)) + 10) (allLayers s).
Proof.
  split.
  - unfold render, handleTakePhoto; simpl. rewrite imap_app. simpl.
    do 4 f_equal. lia.
  - rewrite allLayers_seqZ. apply Forall_forall. intros z Hz.
    apply elem_of_seqZ in Hz. lia.
Qed.

(** The layer of a card is its position: when the one card carrying an
    identifier is deleted, the cards before it keep their layer and every
    card after it comes down by one. *)
Theorem handleDelete_shifts_layers (i : string) (s : AppState)
    (l1 l2 : list PhotoData) (p : PhotoData) :
  photos s = l1 ++ p :: l2 →
  id p = i →
  i ∉ (id <$> l1) →
  i ∉ (id <$> l2) →
  photos (handleDelete i s) = l1 ++ l2
  ∧ (∀ k q, l1 !! k = Some q →
       render s !! k = render (handleDelete i s) !! k)
  ∧ (∀ k q, l2 !! k = Some q →
       (zIndex <$> render s !! (length l1 + 1 + k)%nat)
       = Some (Z.of_nat (length l1 + k) + 11)
       ∧ (zIndex <$> render (handleDelete i s) !! (length l1 + k)%nat)
         = Some (Z.of_nat (length l1 + k) + 10)
       ∧ (photo <$> render s !! (length l1 + 1 + k)%nat) = Some q
       ∧ (photo <$> render (handleDelete i s) !! (length l1 + k)%nat)
         = Some q).
Proof.
  intros Hs Hp H1 H2.
  assert (Hdel : photos (handleDelete i s) = l1 ++ l2).
  { unfold handleDelete; simpl. rewrite Hs, filter_app, filter_cons_False
      by (intros Hne; by apply Hne).
    f_equal; apply filter_all; intros q Hq Heq;
      [apply H1|apply H2]; apply list_elem_of_fmap; by exists q. }
  split; [exact Hdel|]. split.
  - intros k q Hk. rewrite !render_lookup, Hdel, Hs.
    pose proof (lookup_lt_Some _ _ _ Hk).
    by rewrite !lookup_app_l by done.
  - intros k q Hk. rewrite !render_lookup, Hdel, Hs.
    rewrite (lookup_app_r l1 (p :: l2)) by lia.
    rewrite (lookup_app_r l1 l2) by lia.
    replace (length l1 + 1 + k - length l1)%nat with (S k) by lia.
    replace (length l1 + k - length l1)%nat with k by lia.
    simpl. rewrite Hk. simpl. repeat split; f_equal; lia.
Qed.

Lemma handleDelete_shifts_layers_witness :
  photos (handleDelete Sample.idA Sample.twoCards) = [Sample.photoB]
  ∧ allLayers (handleDelete Sample.idA Sample.twoCards) = [10].
Proof.
  destruct (handleDelete_shifts_layers Sample.idA Sample.twoCards
              [] [Sample.photoB] Sample.photoA) as (Hph & _ & Hlater).
  - reflexivity.
  - reflexivity.
  - apply (bool_decide_unpack _). vm_compute. exact I.
  - apply (bool_decide_unpack _). vm_compute. exact I.
  - split; [exact Hph|].
    unfold allLayers, render. rewrite Hph. reflexivity.
Defined.

End WallMore.

Section WallRuns.
Import Wall Trace.

(** Along any series of operations the counter goes up by the number of
    pointer-downs in it, and by nothing else. *)
Theorem counter_counts_presses (os : list Op) (s : AppState) :
  topZIndex (run os s) = topZIndex s + Z.of_nat (presses os).
Proof.
  revert s; induction os as [|o os IH]; intros s; simpl; [lia|].
  rewrite IH. destruct o; simpl; lia.
Qed.

Lemma step_cards (o : Op) (s : AppState) (p : PhotoData) :
  p ∈ photos (fst (step o s)) →
  p ∈ photos s ∨ ∃ e d r, o = Capture e d r ∧ p = newPhoto e d r.
Proof.
  destruct o as [e d r|i|i u|i]; simpl; auto.
  - intros [Hp|Hp%list_elem_of_singleton]%elem_of_app; [by left|].
    right. by exists e, d, r.
  - intros [_ Hp]%list_elem_of_filter. by left.
Qed.

Lemma run_cards (os : list Op) (s : AppState) (p : PhotoData) :
  p ∈ photos (run os s) →
  p ∈ photos s ∨ ∃ e d r, Capture e d r ∈ os ∧ p = newPhoto e d r.
Proof.
  revert s; induction os as [|o os IH]; intros s; simpl; [by left|].
  intros [Hp|(e & d & r & Hin & ->)]%IH.
  - apply step_cards in Hp as [Hp|(e & d & r & -> & ->)]; [by left|].
    right. exists e, d, r. split; [left|reflexivity].
  - right. exists e, d, r. split; [by right|reflexivity].
Qed.

(** No callback alters a card: every card on a wall that started empty is
    the record built by one of the captures, as built, and so is flagged
    as developing. *)
Theorem cards_come_from_captures (os : list Op) (p : PhotoData) :
  p ∈ photos (run os initial) →
  isDeveloping p = true
  ∧ ∃ e d r, Capture e d r ∈ os ∧ p = newPhoto e d r.
Proof.
  intros [Hp|(e & d & r & Hin & ->)]%run_cards.
  - by apply elem_of_nil in Hp.
  - split; [reflexivity|]. by exists e, d, r.
Qed.

Lemma cards_come_from_captures_witness :
  isDeveloping Sample.photoB = true.
Proof.
  apply (cards_come_from_captures
           [Capture Sample.entropyA Sample.stillA Sample.body;
            Capture Sample.entropyB Sample.stillB Sample.body;
            Delete Sample.idA]
           Sample.photoB).
  replace (photos
             (run [Capture Sample.entropyA Sample.stillA Sample.body;
                   Capture Sample.entropyB Sample.stillB Sample.body;
                   Delete Sample.idA] initial))
    with [Sample.photoB] by (vm_compute; reflexivity).
  left.
Defined.

Lemma sublist_map {A B} (f : A → B) (k l : list A) :
  k `sublist_of` l → (f <$> k) `sublist_of` (f <$> l).
Proof. induction 1; simpl; by constructor. Qed.

(** The identifiers on the wall stay pairwise distinct, provided each
    capture draws an identifier that is not already there. *)
Theorem ids_stay_distinct (o : Op) (s : AppState) :
  NoDup (ids s) → fresh o s → NoDup (ids (fst (step o s))).
Proof.
  intros Hnd Hfresh. destruct o as [e d r|i|i u|i]; simpl in *; auto.
  - unfold ids; simpl. rewrite fmap_app. apply NoDup_app.
    split; [exact Hnd|]. split; [|apply NoDup_singleton].
    intros j Hj ->%list_elem_of_singleton. by apply Hfresh.
  - unfold ids; simpl. eapply sublist_NoDup; [exact Hnd|].
    apply sublist_map, sublist_filter.
Qed.

Lemma ids_stay_distinct_witness :
  NoDup (ids Sample.twoCards).
Proof.
  apply (ids_stay_distinct
           (Capture Sample.entropyB Sample.stillB Sample.body)
           (handleTakePhoto Sample.entropyA Sample.stillA Sample.body
              initial)).
  - apply (bool_decide_unpack _). vm_compute. exact I.
  - apply (bool_decide_unpack _). vm_compute. exact I.
Defined.

(** The files saved during a series of operations are those of its
    downloads, one each, in order; no other operation saves a file. *)
Theorem saved_files_of_run (os : list Op) (s : AppState) :
  savedFiles (effects os s) = requested os.
Proof.
  revert s; induction os as [|o os IH]; intros s; [done|].
  simpl effects. unfold savedFiles in *. rewrite omap_app, IH.
  by destruct o.
Qed.

Lemma append_length (a b : string) :
  String.length (a +:+ b) = (String.length a + String.length b)%nat.
Proof. induction a as [|c a IH]; simpl; auto. Qed.

Lemma substring_0_app (a b : string) :
  substring 0 (String.length a) (a +:+ b) = a.
Proof.
  induction a as [|c a IH]; simpl.
  - by destruct b.
  - by rewrite IH.
Qed.

(** The file name depends on the first 8 characters of the identifier
    only: two identifiers that share them give the same name. *)
Theorem downloadName_first8 (p r1 r2 : string) :
  String.length p = 8%nat →
  downloadName (p +:+ r1) = "instax-" +:+ p +:+ ".jpg"
  ∧ downloadName (p +:+ r1) = downloadName (p +:+ r2).
Proof.
  intros Hp.
  assert (Hs : ∀ r, JS.slice (p +:+ r) 0 8 = p).
  { intros r. unfold JS.slice, JS.clamp_index.
    rewrite append_length, Hp.
    replace (0 <? 0) with false by reflexivity.
    replace (8 <? 0) with false by reflexivity.
    replace (Z.to_nat (Z.min 0 (Z.of_nat (8 + String.length r)))) with 0%nat
      by lia.
    replace (Z.to_nat
               (Z.max (Z.min 8 (Z.of_nat (8 + String.length r))
                       - Z.min 0 (Z.of_nat (8 + String.length r))) 0))
      with (String.length p) by lia.
    apply substring_0_app. }
  unfold downloadName. by rewrite !Hs.
Qed.

Lemma downloadName_first8_witness :
  downloadName "1b9d6bcd-bbfd" = downloadName "1b9d6bcd-0000".
Proof.
  apply (downloadName_first8 "1b9d6bcd" "-bbfd" "-0000"). reflexivity.
Defined.

End WallRuns.

(** ** The card: timers and unmounting *)

Section PolaroidMore.
Import Wall Polaroid.

Lemma polaroid_run_app (es1 es2 : list Event) (s : State) :
  run (es1 ++ es2) s = run es2 (run es1 s).
Proof. revert s; induction es1 as [|e es1 IH]; intros s; simpl; auto. Qed.

Lemma run_dead (es : list Event) (s : State) :
  alive s = false → run es s = s.
Proof.
  intros Hd. induction es as [|e es IH]; [done|].
  simpl. unfold step. by rewrite Hd.
Qed.

Lemma run_still_waiting (es : list Event) (r : N) (s : State) :
  waiting r s → Forall (keeps true) es → (elapsed es < r)%N →
  waiting (r - elapsed es) (run es s).
Proof.
  revert r s; induction es as [|e es IH];
    intros r s (Hd & Ht & Hp & Ha & Hr) Hes Hlt.
  - simpl in *. rewrite N.sub_0_r. by repeat split.
  - apply Forall_cons in Hes as [He Hes]. simpl run. unfold step.
    rewrite Ha. destruct e as [ms|p|]; simpl in He; [| |done].
    + simpl elapsed in *. unfold elapse. rewrite Ht.
      destruct (r <=? ms)%N eqn:Hle; [apply N.leb_le in Hle; lia|].
      apply N.leb_gt in Hle.
      replace (r - (ms + elapsed es))%N with (r - ms - elapsed es)%N by lia.
      apply IH; [|exact Hes|lia].
      unfold waiting; simpl. repeat split; auto. lia.
    + unfold rerender. rewrite Hp, He.
      rewrite bool_decide_eq_true_2 by reflexivity.
      simpl elapsed in *. apply IH; [by repeat split|exact Hes|exact Hlt].
Qed.

(** A developing card taken off the wall before its delay has passed is
    never marked developed: unmounting clears the time-out, and nothing
    that happens afterwards reaches the card. *)
Theorem unmount_cancels_development (p : PhotoData) (es1 es2 : list Event) :
  isDeveloping p = true →
  Forall (keeps true) es1 →
  (elapsed es1 < DELAY)%N →
  developed (run (es1 ++ Unmount :: es2) (mount p)) = false
  ∧ timer (run (es1 ++ Unmount :: es2) (mount p)) = None.
Proof.
  intros Hp Hes Hlt.
  assert (Hw : waiting DELAY (mount p)).
  { unfold mount, effect, firstRender, waiting, DELAY; simpl. rewrite Hp.
    simpl. repeat split; lia. }
  destruct (run_still_waiting es1 DELAY (mount p) Hw Hes Hlt)
    as (Hd & Ht & Hdep & Ha & _).
  rewrite polaroid_run_app. simpl run.
  assert (Hstep : step Unmount (run es1 (mount p))
                  = unmount (run es1 (mount p)))
    by (unfold step; by rewrite Ha).
  rewrite Hstep, run_dead by reflexivity.
  unfold unmount, cleanup. rewrite Hdep. simpl. by rewrite Hd.
Qed.

Lemma unmount_cancels_development_witness :
  developed (run [Elapse 99; Unmount; Elapse 1000] (mount Sample.photoA))
  = false.
Proof.
  apply (unmount_cancels_development Sample.photoA [Elapse 99] [Elapse 1000]).
  - reflexivity.
  - repeat constructor.
  - reflexivity.
Defined.

(** A mounted card that is not developed has a time-out pending, at most
    the delay away. *)
Lemma pending_or_developed (es : list Event) (p : PhotoData) :
  Unmount ∉ es →
  alive (run es (mount p)) = true
  ∧ (developed (run es (mount p)) = false →
     ∃ r, timer (run es (mount p)) = Some r ∧ (r ≤ DELAY)%N).
Proof.
  assert (Hmount : alive (mount p) = true
                   ∧ (developed (mount p) = false →
                      ∃ r, timer (mount p) = Some r ∧ (r ≤ DELAY)%N)).
  { unfold mount, effect, firstRender; simpl.
    destruct (isDeveloping p); simpl; (split; [reflexivity|]).
    - intros _. by exists DELAY.
    - discriminate. }
  revert Hmount. generalize (mount p) as s.
  induction es as [|e es IH]; intros s Hs Hes; [exact Hs|].
  apply not_elem_of_cons in Hes as [He Hes].
  simpl run. apply IH; [|exact Hes].
  destruct Hs as [Ha Hpend]. unfold step. rewrite Ha.
  destruct e as [ms|q|]; [| |done].
  - unfold elapse. destruct (timer s) as [r|] eqn:Ht;
      [|split; [exact Ha|]; intros Hd;
        destruct (Hpend Hd) as (r & Hr & _); congruence].
    destruct (r <=? ms)%N eqn:Hle; simpl.
    + split; [exact Ha|discriminate].
    + split; [exact Ha|].
      intros Hd. destruct (Hpend Hd) as (r' & [= <-] & Hr').
      exists (r - ms)%N. split; [reflexivity|lia].
  - unfold rerender. case_bool_decide; [by split|].
    unfold effect, cleanup; simpl.
    destruct (isDeveloping q), (dep s); simpl;
      (split; [exact Ha|]);
      first [discriminate | intros _; by exists DELAY].
Qed.

(** No card stays blurred: whatever renders and pauses came before, a card
    still on the wall is developed once the delay has passed. *)
Theorem develops_within_delay (p : PhotoData) (es : list Event) (ms : N) :
  Unmount ∉ es →
  (DELAY ≤ ms)%N →
  developed (run (es ++ [Elapse ms]) (mount p)) = true.
Proof.
  intros Hes Hms. rewrite polaroid_run_app. simpl.
  destruct (pending_or_developed es p Hes) as [Ha Hpend].
  unfold step. rewrite Ha. unfold elapse.
  destruct (developed (run es (mount p))) eqn:Hd.
  - destruct (timer _) as [r|]; [|exact Hd].
    destruct (r <=? ms)%N; simpl; auto.
  - destruct (Hpend eq_refl) as (r & -> & Hr).
    replace (r <=? ms)%N with true by (symmetry; apply N.leb_le; lia).
    reflexivity.
Qed.

Lemma develops_within_delay_witness :
  developed
    (run ([Elapse 30; Rerender Sample.oldPhoto; Rerender Sample.photoA]
          ++ [Elapse 100]) (mount Sample.photoA)) = true.
Proof.
  apply (develops_within_delay Sample.photoA
           [Elapse 30; Rerender Sample.oldPhoto; Rerender Sample.photoA]
           100).
  - intros H. repeat (apply elem_of_cons in H as [H|H]; [discriminate|]).
    by apply elem_of_nil in H.
  - reflexivity.
Defined.

End PolaroidMore.

(** ** The camera: crop, raster and timers *)

Section CameraMore.
Import Wall Camera CameraTrace.

Lemma crop_inside_witness :
  (0 <= sourceX (crop Sample.landscape)
   ∧ 0 <= sourceY (crop Sample.landscape)
   ∧ sourceX (crop Sample.landscape) + sourceWidth (crop Sample.landscape)
     <= 1280
   ∧ sourceY (crop Sample.landscape) + sourceHeight (crop Sample.landscape)
     <= 720)%Q.
Proof. apply (crop_inside Sample.landscape); reflexivity. Defined.

(** A stream that already has the target ratio is not cropped: the source
    rectangle is the whole frame. *)
Theorem crop_exact_ratio (v : Video) :
  0 < videoWidth v →
  0 < videoHeight v →
  videoWidth v * height = videoHeight v * width →
  (sourceX (crop v) == 0 ∧ sourceY (crop v) == 0
   ∧ sourceWidth (crop v) == inject_Z (videoWidth v)
   ∧ sourceHeight (crop v) == inject_Z (videoHeight v))%Q.
Proof.
  intros Hw Hh Heq.
  assert (HW : (inject_Z (videoWidth v) * 620 == inject_Z (videoHeight v) * 460)%Q).
  { change 620%Q with (inject_Z height). change 460%Q with (inject_Z width).
    rewrite <- !inject_Z_mult. by rewrite Heq. }
  apply inject_Z_pos in Hw, Hh.
  set (W := inject_Z (videoWidth v)) in *.
  set (H := inject_Z (videoHeight v)) in *.
  assert (Et : (targetRatio == 23 # 31)%Q) by reflexivity.
  assert (Er : (videoRatio v == 23 # 31)%Q).
  { unfold videoRatio. fold W H.
    assert (E : (W == H * (23 # 31))%Q) by (clearbody W H; lra).
    rewrite E. field. clearbody H; lra. }
  assert (Hgt : gt (videoRatio v) targetRatio = false).
  { apply not_true_is_false. rewrite gt_spec, Et, Er. apply Qlt_irrefl. }
  unfold crop. rewrite Hgt. simpl. fold W H.
  change targetRatio with ((460 # 1) / (620 # 1))%Q.
  assert (E : (W / ((460 # 1) / (620 # 1)) == H)%Q).
  { assert (E' : (W / ((460 # 1) / (620 # 1)) == W * (31 # 23))%Q)
      by (field; lra).
    rewrite E'. clearbody W H. lra. }
  repeat split; try reflexivity; [|exact E].
  rewrite E. field.
Qed.

Lemma crop_exact_ratio_witness :
  (sourceWidth (crop {| videoWidth := 690; videoHeight := 930;
                        frame := "f" |}) == 690
   ∧ sourceHeight (crop {| videoWidth := 690; videoHeight := 930;
                           frame := "f" |}) == 930)%Q.
Proof.
  destruct (crop_exact_ratio {| videoWidth := 690; videoHeight := 930;
                                frame := "f" |})
    as (_ & _ & Hw & Hh); [reflexivity|reflexivity|reflexivity|].
  split; [exact Hw|exact Hh].
Defined.


End CameraMore.

Section CameraTimers.
Import Wall Camera CameraTrace.

Variable toDataURL : Canvas → string → Q → string.

Lemma fireAll_timers (ts : list Task) (s : State) :
  timers (fst (fireAll ts s)) = timers s.
Proof.
  revert s; induction ts as [|t ts IH]; intros s; [done|].
  simpl. destruct (fire t s) as [s1 out1] eqn:Hf.
  specialize (IH s1). destruct (fireAll ts s1) as [s2 out2]. simpl in *.
  destruct t; injection Hf as <- <-; exact IH.
Qed.

Lemma fireAll_calls (ts : list Task) (s : State) :
  snd (fireAll ts s) = omap handoffOf ts.
Proof.
  revert s; induction ts as [|t ts IH]; intros s; [done|].
  simpl. destruct (fire t s) as [s1 out1] eqn:Hf.
  specialize (IH s1). destruct (fireAll ts s1) as [s2 out2]. simpl in *.
  destruct t; injection Hf as <- <-; simpl; by rewrite IH.
Qed.

Lemma fireAll_flash (ts : list Task) (s : State) :
  isFlashing (fst (fireAll ts s)) = true →
  isFlashing s = true ∧ FlashOff ∉ ts.
Proof.
  revert s; induction ts as [|t ts IH]; intros s.
  - simpl. intros H. split; [exact H|apply not_elem_of_nil].
  - simpl. destruct (fire t s) as [s1 out1] eqn:Hf.
    specialize (IH s1). destruct (fireAll ts s1) as [s2 out2]. simpl in *.
    intros H. destruct (IH H) as [H1 H2].
    destruct t; injection Hf as <- <-; simpl in *; [discriminate|].
    split; [exact H1|]. intros [?|?]%elem_of_cons; [discriminate|done].
Qed.

Lemma fireAll_eject (ts : list Task) (s : State) (d : string) :
  ejectingPhoto (fst (fireAll ts s)) = Some d →
  ejectingPhoto s = Some d ∧ ∀ d' l, Handoff d' l ∉ ts.
Proof.
  revert s; induction ts as [|t ts IH]; intros s.
  - simpl. intros H. split; [exact H|]. intros ? ?. apply not_elem_of_nil.
  - simpl. destruct (fire t s) as [s1 out1] eqn:Hf.
    specialize (IH s1). destruct (fireAll ts s1) as [s2 out2]. simpl in *.
    intros H. destruct (IH H) as [H1 H2].
    destruct t; injection Hf as <- <-; simpl in *; [|discriminate].
    split; [exact H1|]. intros d' l [?|?]%elem_of_cons; [discriminate|].
    by eapply H2.
Qed.

Lemma fireAll_streaming (ts : list Task) (s : State) :
  isStreaming (fst (fireAll ts s)) = isStreaming s.
Proof.
  revert s; induction ts as [|t ts IH]; intros s; [done|].
  simpl. destruct (fire t s) as [s1 out1] eqn:Hf.
  specialize (IH s1). destruct (fireAll ts s1) as [s2 out2]. simpl in *.
  destruct t; injection Hf as <- <-; exact IH.
Qed.

(** What a pause leaves pending, and what it calls. *)
Lemma elapse_spec (ms : N) (s : State) :
  timers (fst (elapse ms s))
  = (prod_map (λ r, (r - ms)%N) Datatypes.id
       <$> filter (λ t, ¬ (fst t ≤ ms)%N) (timers s))
  ∧ snd (elapse ms s)
    = omap handoffOf (snd <$> filter (λ t, (fst t ≤ ms)%N) (timers s)).
Proof.
  unfold elapse. rewrite fireAll_timers, fireAll_calls. by split.
Qed.

Lemma calls_no_timer (ds : list N) (s : State) :
  timers s = [] → calls toDataURL (Elapse <$> ds) s = [].
Proof.
  revert s; induction ds as [|d0 ds IH]; intros s Ht; [done|].
  simpl. destruct (elapse_spec d0 s) as [Hts Hout].
  rewrite Hout, Ht. simpl. apply IH. by rewrite Hts, Ht.
Qed.

Lemma calls_one_timer (ds : list N) (s : State) (r : N) (d : string)
    (l : DOMRect) :
  timers s = [(r, Handoff d l)] → (0 < r)%N →
  calls toDataURL (Elapse <$> ds) s
  = if bool_decide (r ≤ total ds)%N then [(d, l)] else [].
Proof.
  revert s r; induction ds as [|d0 ds IH]; intros s r Ht Hr.
  - simpl. by rewrite bool_decide_eq_false_2 by lia.
  - simpl. destruct (elapse_spec d0 s) as [Hts Hout].
    rewrite Hout, Ht. rewrite Ht in Hts.
    rewrite !filter_cons, !filter_nil in *. simpl in *.
    destruct (decide (r ≤ d0)%N) as [Hle|Hgt].
    + rewrite decide_False in Hts by (intros Hn; by apply Hn).
      simpl in *. rewrite calls_no_timer by exact Hts.
      by rewrite bool_decide_eq_true_2 by lia.
    + rewrite decide_True in Hts by done. simpl in *.
      rewrite (IH _ (r - d0)%N) by (done || lia).
      by rewrite (bool_decide_ext (r - d0 ≤ total ds)%N
                    (r ≤ d0 + total ds)%N) by lia.
Qed.

(** One press, one card: after a press of the shutter with nothing
    pending, [onTakePhoto] is called with the still of that press and the
    rectangle of that press once 600 ms have passed, not before, and never
    twice, however the time is cut into pauses. *)
Theorem handoff_after_600 (layout : DOMRect) (s : State) (ds : list N) :
  permissionError s = false →
  has2d (canvas s) = true →
  timers s = [] →
  calls toDataURL (Elapse <$> ds) (handleCapture toDataURL layout s)
  = if bool_decide (600 ≤ total ds)%N
    then [(toDataURL (paint (srcObject s) (canvas s)) "image/jpeg" 0.9%Q,
           layout)]
    else [].
Proof.
  intros Hp Hc Ht.
  set (d := toDataURL (paint (srcObject s) (canvas s)) "image/jpeg" 0.9%Q).
  assert (Hts : timers (handleCapture toDataURL layout s)
                = [(200%N, FlashOff); (600%N, Handoff d layout)]).
  { unfold handleCapture, videoRef, lens, canvasRef, cameraBodyRef.
    rewrite Hp, Hc. simpl. by rewrite Ht. }
  revert Hts. generalize (handleCapture toDataURL layout s) as s1.
  assert (Hgen : ∀ ds (s1 : State) (r1 r2 : N),
            timers s1 = [(r1, FlashOff); (r2, Handoff d layout)] →
            (0 < r1)%N → (r1 ≤ r2)%N →
            calls toDataURL (Elapse <$> ds) s1
            = if bool_decide (r2 ≤ total ds)%N then [(d, layout)] else []).
  { clear ds. induction ds as [|d0 ds IH]; intros s1 r1 r2 Hts H1 H2.
    - simpl. by rewrite bool_decide_eq_false_2 by lia.
    - simpl. destruct (elapse_spec d0 s1) as [Hts' Hout].
      rewrite Hout, Hts. rewrite Hts in Hts'.
      rewrite !filter_cons, !filter_nil in *. simpl in *.
      destruct (decide (r1 ≤ d0)%N) as [Hle1|Hgt1];
        destruct (decide (r2 ≤ d0)%N) as [Hle2|Hgt2]; try lia.
      + rewrite !decide_False in Hts' by (intros Hn; by apply Hn).
        simpl in *. rewrite calls_no_timer by exact Hts'.
        by rewrite bool_decide_eq_true_2 by lia.
      + rewrite decide_False in Hts' by (intros Hn; by apply Hn).
        rewrite decide_True in Hts' by done. simpl in *.
        rewrite (calls_one_timer _ _ (r2 - d0)%N d layout)
          by (done || lia).
        by rewrite (bool_decide_ext (r2 - d0 ≤ total ds)%N
                      (r2 ≤ d0 + total ds)%N) by lia.
      + rewrite !decide_True in Hts' by done. simpl in *.
        rewrite (IH _ (r1 - d0)%N (r2 - d0)%N) by (done || lia).
        by rewrite (bool_decide_ext (r2 - d0 ≤ total ds)%N
                      (r2 ≤ d0 + total ds)%N) by lia. }
  intros s1 Hts. apply (Hgen ds s1 200%N 600%N Hts); lia.
Qed.

End CameraTimers.

Lemma handoff_after_600_witness :
  CameraTrace.calls Sample.toDataURL
    (Camera.Elapse <$> [250; 250; 100]%N)
    (Camera.handleCapture Sample.toDataURL Sample.body
       (Camera.resolved Sample.landscape Camera.mount))
  = [("data:image/jpeg;base64,460x620", Sample.body)].
Proof.
  rewrite (handoff_after_600 Sample.toDataURL Sample.body
             (Camera.resolved Sample.landscape Camera.mount)
             [250; 250; 100]%N); reflexivity.
Defined.

Section CameraInvariants.
Import Wall Camera CameraTrace.

Variable toDataURL : Canvas → string → Q → string.

Lemma filter_none {A} (P : A → Prop) `{!∀ a, Decision (P a)} (l : list A) :
  (∀ a, a ∈ l → ¬ P a) → filter P l = [].
Proof.
  induction l as [|a l IH]; intros HP; [done|].
  rewrite filter_cons_False by (apply HP; left).
  apply IH. intros b Hb. apply HP. by right.
Qed.

Lemma camera_run_snoc (es : list Event) (e : Event) (s : State) :
  run toDataURL (es ++ [e]) s
  = fst (step toDataURL e (run toDataURL es s)).
Proof. revert s; induction es as [|e' es IH]; intros s; simpl; auto. Qed.

Lemma sound_handleCapture (layout : DOMRect) (s : State) :
  sound s → sound (handleCapture toDataURL layout s).
Proof.
  intros (Hb & Hf & He).
  unfold handleCapture, canvasRef, cameraBodyRef.
  destruct (videoRef s) as [v|]; [|by repeat split].
  destruct (has2d (canvas s)); unfold sound; simpl.
  - split; [|split].
    + rewrite <- app_assoc. apply Forall_app. split; [exact Hb|].
      repeat constructor; simpl; lia.
    + intros _. exists 200%N.
      apply elem_of_app; left. apply elem_of_app; right. left.
    + intros d _. exists 600%N. eexists _, _.
      apply elem_of_app; right. left.
  - split; [|split].
    + apply Forall_app. split; [exact Hb|]. repeat constructor; simpl; lia.
    + intros _. exists 200%N. apply elem_of_app; right. left.
    + intros d Hd. destruct (He d Hd) as (r & d' & l & Hin).
      exists r, d', l. apply elem_of_app; by left.
Qed.

Lemma sound_elapse (ms : N) (s : State) :
  sound s → sound (fst (elapse ms s)).
Proof.
  intros (Hb & Hf & He).
  destruct (elapse_spec ms s) as [Hts _].
  unfold sound. rewrite Hts. split; [|split].
  - apply Forall_fmap, Forall_forall. intros [r t] [_ Hin]%list_elem_of_filter.
    rewrite Forall_forall in Hb. specialize (Hb _ Hin). simpl in *. lia.
  - unfold elapse. intros [Hfl Hno]%fireAll_flash. simpl in Hfl.
    destruct (Hf Hfl) as (r & Hin).
    destruct (decide (r ≤ ms)%N) as [Hle|Hgt].
    + exfalso. apply Hno. apply list_elem_of_fmap. exists (r, FlashOff).
      split; [reflexivity|]. by apply list_elem_of_filter.
    + exists (r - ms)%N. apply list_elem_of_fmap. exists (r, FlashOff).
      split; [reflexivity|]. by apply list_elem_of_filter.
  - unfold elapse. intros d [Hej Hno]%fireAll_eject. simpl in Hej.
    destruct (He d Hej) as (r & d' & l & Hin).
    destruct (decide (r ≤ ms)%N) as [Hle|Hgt].
    + exfalso. apply (Hno d' l). apply list_elem_of_fmap.
      exists (r, Handoff d' l). split; [reflexivity|].
      by apply list_elem_of_filter.
    + exists (r - ms)%N, d', l. apply list_elem_of_fmap.
      exists (r, Handoff d' l). split; [reflexivity|].
      by apply list_elem_of_filter.
Qed.

Lemma sound_step (e : Event) (s : State) :
  sound s → sound (fst (step toDataURL e s)).
Proof.
  intros Hs. destruct e as [stream|err|layout|ms]; simpl.
  - unfold resolved. destruct (request s); try exact Hs.
    destruct (videoRef (settle s)); exact Hs.
  - unfold rejected. destruct (request s); exact Hs.
  - by apply sound_handleCapture.
  - by apply sound_elapse.
Qed.

Lemma sound_run (es : list Event) (s : State) :
  sound s → sound (run toDataURL es s).
Proof.
  revert s; induction es as [|e es IH]; intros s Hs; [exact Hs|].
  simpl. by apply IH, sound_step.
Qed.

Lemma sound_mount : sound mount.
Proof. unfold sound, mount; simpl. repeat split; [constructor|done|done]. Qed.

(** The camera always comes back to rest: whatever happened since it was
    mounted, 600 ms without a press leave no time-out pending, the flash
    overlay off and no photo ejecting. *)
Theorem camera_returns_to_rest (es : list Event) :
  timers (run toDataURL (es ++ [Elapse 600]) mount) = []
  ∧ isFlashing (run toDataURL (es ++ [Elapse 600]) mount) = false
  ∧ ejectingPhoto (run toDataURL (es ++ [Elapse 600]) mount) = None.
Proof.
  rewrite camera_run_snoc. simpl step.
  pose proof (sound_run es mount sound_mount) as (Hb & Hf & He).
  set (s := run toDataURL es mount) in *.
  assert (Hall : filter (λ t, (fst t ≤ 600)%N) (timers s) = timers s).
  { apply filter_all. by apply Forall_forall. }
  assert (Hnone : filter (λ t, ¬ (fst t ≤ 600)%N) (timers s) = []).
  { apply filter_none. rewrite Forall_forall in Hb.
    intros t Ht Hn. by apply Hn, Hb. }
  destruct (elapse_spec 600 s) as [Hts _].
  split; [|split].
  - by rewrite Hts, Hnone.
  - apply not_true_is_false. unfold elapse.
    intros [Hfl Hno]%fireAll_flash. simpl in Hfl.
    destruct (Hf Hfl) as (r & Hin). apply Hno.
    rewrite Hall. apply list_elem_of_fmap. by exists (r, FlashOff).
  - destruct (ejectingPhoto (fst (elapse 600 s))) as [d|] eqn:Hd;
      [|reflexivity].
    exfalso. unfold elapse in Hd. apply fireAll_eject in Hd as [Hej Hno].
    simpl in Hej. destruct (He d Hej) as (r & d' & l & Hin).
    apply (Hno d' l). rewrite Hall. apply list_elem_of_fmap.
    by exists (r, Handoff d' l).
Qed.

End CameraInvariants.

Section CameraRequest.
Import Wall Camera CameraTrace.

Variable toDataURL : Canvas → string → Q → string.

(** Either the request is pending and nothing was set, or it has settled
    and exactly one of the two outcomes was recorded. *)
Lemma request_outcome_step (e : Event) (s : State) :
  (request s = Pending ∧ isStreaming s = false ∧ permissionError s = false)
  ∨ (request s = Settled ∧ isStreaming s = negb (permissionError s)) →
  (request (fst (step toDataURL e s)) = Pending
   ∧ isStreaming (fst (step toDataURL e s)) = false
   ∧ permissionError (fst (step toDataURL e s)) = false)
  ∨ (request (fst (step toDataURL e s)) = Settled
     ∧ isStreaming (fst (step toDataURL e s))
       = negb (permissionError (fst (step toDataURL e s)))).
Proof.
  intros Hs. destruct e as [stream|err|layout|ms]; simpl.
  - unfold resolved.
    destruct Hs as [(Hr & Hi & Hp)|(Hr & Hi)]; rewrite Hr; [|by right].
    unfold videoRef, lens. simpl. rewrite Hp. simpl. right. by rewrite Hp.
  - unfold rejected.
    destruct Hs as [(Hr & Hi & Hp)|(Hr & Hi)]; rewrite Hr; [|by right].
    simpl. right. by rewrite Hi.
  - unfold handleCapture, canvasRef, cameraBodyRef.
    destruct (videoRef s); [|exact Hs].
    destruct (has2d (canvas s)); exact Hs.
  - unfold elapse.
    destruct (fireAll_keeps (snd <$> filter (λ t, (fst t ≤ ms)%N) (timers s))
                (setTimers
                   (prod_map (λ r, (r - ms)%N) Datatypes.id
                      <$> filter (λ t, ¬ (fst t ≤ ms)%N) (timers s)) s))
      as (Hp & _ & Hr & _).
    rewrite Hp, Hr, fireAll_streaming. exact Hs.
Qed.

(** The preview streams or the placeholder shows, never both: while the
    request is pending the camera neither streams nor shows the
    placeholder, and once it has settled it streams exactly when the
    placeholder is not shown. *)
Theorem streaming_or_placeholder (es : list Event) :
  (request (run toDataURL es mount) = Pending
   ∧ isStreaming (run toDataURL es mount) = false
   ∧ lens (run toDataURL es mount) = Preview)
  ∨ (request (run toDataURL es mount) = Settled
     ∧ (isStreaming (run toDataURL es mount) = true
        ↔ lens (run toDataURL es mount) = Preview)).
Proof.
  assert (H : (request (run toDataURL es mount) = Pending
               ∧ isStreaming (run toDataURL es mount) = false
               ∧ permissionError (run toDataURL es mount) = false)
              ∨ (request (run toDataURL es mount) = Settled
                 ∧ isStreaming (run toDataURL es mount)
                   = negb (permissionError (run toDataURL es mount)))).
  { assert (H0 : (request mount = Pending ∧ isStreaming mount = false
                  ∧ permissionError mount = false)
                 ∨ (request mount = Settled
                    ∧ isStreaming mount = negb (permissionError mount)))
      by (left; done).
    revert H0. generalize mount as s.
    induction es as [|e es IH]; intros s Hs; [exact Hs|].
    simpl. by apply IH, request_outcome_step. }
  unfold lens.
  destruct H as [(Hr & Hi & Hp)|(Hr & Hi)]; [left|right].
  - by rewrite Hp.
  - split; [exact Hr|]. rewrite Hi.
    destruct (permissionError (run toDataURL es mount)); simpl; split;
      done.
Qed.

End CameraRequest.

(** ** The application as a whole: camera, wall and buttons together *)

Section SystemMore.
Import Wall Camera CameraTrace.

Variable toDataURL : Canvas → string → Q → string.
Variable entropy : nat → Entropy.

Lemma system_step_wall (ce : Event) (st : System.State) :
  System.wall (fst (System.step toDataURL entropy (System.OnCamera ce) st))
  = fst (System.deliver entropy (snd (step toDataURL ce (System.camera st)))
           (System.wall st) (System.taken st))
  ∧ System.taken
      (fst (System.step toDataURL entropy (System.OnCamera ce) st))
    = snd (System.deliver entropy
             (snd (step toDataURL ce (System.camera st)))
             (System.wall st) (System.taken st)).
Proof.
  simpl. destruct (step toDataURL ce (System.camera st)) as [c out].
  simpl. by destruct (System.deliver entropy out (System.wall st)
                        (System.taken st)).
Qed.

Lemma idle_no_calls (l : list (N * Task)) :
  Forall (λ t, snd t = FlashOff) l → omap handoffOf (snd <$> l) = [].
Proof.
  induction 1 as [|[r t] l Ht _ IH]; [done|].
  simpl in *. by rewrite Ht.
Qed.

Lemma idle_step (e : Event) (s : State) :
  permissionError s = true → idle s →
  snd (step toDataURL e s) = [] ∧ idle (fst (step toDataURL e s)).
Proof.
  intros Hp Hi. destruct e as [stream|err|layout|ms]; simpl.
  - split; [done|]. unfold resolved. destruct (request s); try exact Hi.
    destruct (videoRef (settle s)); exact Hi.
  - split; [done|]. unfold rejected. destruct (request s); exact Hi.
  - split; [done|]. by rewrite handleCapture_unavailable.
  - destruct (elapse_spec ms s) as [Hts Hout]. unfold idle in *.
    rewrite Hts, Hout. rewrite Forall_forall in Hi. split.
    + apply idle_no_calls, Forall_forall.
      intros t [_ Hin]%list_elem_of_filter. by apply Hi.
    + apply Forall_fmap, Forall_forall.
      intros [r t] [_ Hin]%list_elem_of_filter. simpl.
      by apply (Hi (r, t)).
Qed.

(** Once the placeholder is shown and no hand-off is left pending, the
    camera never adds a card: whatever is pressed and however long one
    waits, the wall stays as it is. *)
Theorem no_card_after_failure (ces : list Event) (st : System.State) :
  permissionError (System.camera st) = true →
  idle (System.camera st) →
  System.wall
    (System.run toDataURL entropy (System.OnCamera <$> ces) st)
  = System.wall st.
Proof.
  revert st; induction ces as [|ce ces IH]; intros st Hp Hi; [done|].
  change (System.wall
            (System.run toDataURL entropy (System.OnCamera <$> ces)
               (fst (System.step toDataURL entropy (System.OnCamera ce) st)))
          = System.wall st).
  destruct (idle_step ce (System.camera st) Hp Hi) as [Hout Hi'].
  destruct (system_step_wall ce st) as [Hw _].
  rewrite Hout in Hw. simpl in Hw.
  rewrite IH.
  - exact Hw.
  - rewrite (system_step_camera toDataURL entropy (System.OnCamera ce) st).
    by apply step_permissionError.
  - by rewrite (system_step_camera toDataURL entropy (System.OnCamera ce) st).
Qed.

(** A press in front of the preview, with nothing pending, puts exactly one
    new card on the wall 600 ms later: the card built by [handleTakePhoto]
    from the still of that press and the rectangle of the camera body at
    that press. *)
Theorem press_yields_one_card (layout : DOMRect) (st : System.State) :
  permissionError (System.camera st) = false →
  has2d (canvas (System.camera st)) = true →
  timers (System.camera st) = [] →
  System.wall
    (System.run toDataURL entropy
       [System.OnCamera (Shutter layout); System.OnCamera (Elapse 600)] st)
  = handleTakePhoto (entropy (System.taken st))
      (toDataURL (paint (srcObject (System.camera st))
                    (canvas (System.camera st))) "image/jpeg" 0.9%Q)
      layout (System.wall st)
  ∧ System.wall
      (System.run toDataURL entropy
         [System.OnCamera (Shutter layout); System.OnCamera (Elapse 599)] st)
    = System.wall st.
Proof.
  intros Hp Hc Ht.
  set (pressed := fst (System.step toDataURL entropy
                         (System.OnCamera (Shutter layout)) st)).
  assert (Hcam : System.camera pressed
                 = handleCapture toDataURL layout (System.camera st))
    by reflexivity.
  assert (Hwall : System.wall pressed = System.wall st) by reflexivity.
  assert (Htaken : System.taken pressed = System.taken st) by reflexivity.
  assert (Hts : timers (System.camera pressed)
                = [(200%N, FlashOff);
                   (600%N,
                    Handoff
                      (toDataURL (paint (srcObject (System.camera st))
                                    (canvas (System.camera st)))
                         "image/jpeg" 0.9%Q) layout)]).
  { rewrite Hcam.
    unfold handleCapture, videoRef, lens, canvasRef, cameraBodyRef.
    rewrite Hp, Hc. simpl. by rewrite Ht. }
  assert (Hrun : ∀ e,
            System.run toDataURL entropy
              [System.OnCamera (Shutter layout); e] st
            = fst (System.step toDataURL entropy e pressed))
    by reflexivity.
  rewrite !Hrun. split.
  - destruct (system_step_wall (Elapse 600) pressed) as [Hw _].
    rewrite Hw.
    change (step toDataURL (Elapse 600) (System.camera pressed))
      with (elapse 600 (System.camera pressed)).
    destruct (elapse_spec 600 (System.camera pressed)) as [_ Hout].
    rewrite Hout, Hts, Hwall, Htaken. reflexivity.
  - destruct (system_step_wall (Elapse 599) pressed) as [Hw _].
    rewrite Hw.
    change (step toDataURL (Elapse 599) (System.camera pressed))
      with (elapse 599 (System.camera pressed)).
    destruct (elapse_spec 599 (System.camera pressed)) as [_ Hout].
    rewrite Hout, Hts, Hwall. reflexivity.
Qed.

End SystemMore.

Lemma no_card_after_failure_witness :
  System.wall
    (System.run Sample.toDataURL Sample.entropy
       (System.OnCamera
          <$> [Camera.Shutter Sample.body; Camera.Elapse 600;
               Camera.Resolve Sample.landscape; Camera.Shutter Sample.body;
               Camera.Elapse 5000])
       (fst (System.step Sample.toDataURL Sample.entropy
               (System.OnCamera (Camera.Reject "NotFoundError"))
               System.initial)))
  = Wall.initial.
Proof.
  apply (no_card_after_failure Sample.toDataURL Sample.entropy
           [Camera.Shutter Sample.body; Camera.Elapse 600;
            Camera.Resolve Sample.landscape; Camera.Shutter Sample.body;
            Camera.Elapse 5000]
           (fst (System.step Sample.toDataURL Sample.entropy
                   (System.OnCamera (Camera.Reject "NotFoundError"))
                   System.initial))).
  - reflexivity.
  - constructor.
Defined.

Lemma press_yields_one_card_witness :
  Wall.photos
    (System.wall
       (System.run Sample.toDataURL Sample.entropy
          [System.OnCamera (Camera.Shutter Sample.body);
           System.OnCamera (Camera.Elapse 600)]
          (fst (System.step Sample.toDataURL Sample.entropy
                  (System.OnCamera (Camera.Resolve Sample.portrait))
                  System.initial))))
  = [Wall.newPhoto Sample.entropyA "data:image/jpeg;base64,460x620"
       Sample.body].
Proof.
  destruct (press_yields_one_card Sample.toDataURL Sample.entropy Sample.body
              (fst (System.step Sample.toDataURL Sample.entropy
                      (System.OnCamera (Camera.Resolve Sample.portrait))
                      System.initial))) as [Hcard _];
    [reflexivity|reflexivity|reflexivity|].
  rewrite Hcard. reflexivity.
Defined.

Section SystemIds.
Import Wall Camera Trace CameraTrace.

Variable toDataURL : Canvas → string → Q → string.
Variable entropy : nat → Entropy.

Lemma deliver_ids (out : list (string * DOMRect)) (w : AppState) (n : nat) :
  ids w `sublist_of` drawnIds entropy n →
  ids (fst (System.deliver entropy out w n))
    `sublist_of` drawnIds entropy (snd (System.deliver entropy out w n)).
Proof.
  revert w n; induction out as [|[d r] out IH]; intros w n Hw; [exact Hw|].
  change (System.deliver entropy ((d, r) :: out) w n)
    with (System.deliver entropy out
            (handleTakePhoto (entropy n) d r w) (S n)).
  apply IH. unfold ids, drawnIds in *. cbn [photos handleTakePhoto].
  rewrite seq_S, !fmap_app. by apply sublist_app.
Qed.

Lemma system_step_ids (e : System.Event) (st : System.State) :
  ids (System.wall st) `sublist_of` drawnIds entropy (System.taken st) →
  ids (System.wall (fst (System.step toDataURL entropy e st)))
    `sublist_of`
    drawnIds entropy (System.taken (fst (System.step toDataURL entropy e st))).
Proof.
  intros Hst. destruct e as [ce|c].
  - destruct (system_step_wall toDataURL entropy ce st) as [-> ->].
    by apply deliver_ids.
  - destruct c as [i|i|i u]; simpl; try exact Hst.
    etransitivity; [|exact Hst].
    unfold ids; simpl. apply sublist_map, sublist_filter.
Qed.

(** When the identifiers drawn by the captures never repeat, the cards on
    the wall carry pairwise distinct identifiers at all times. *)
Theorem system_ids_distinct (es : list System.Event) :
  (∀ m n, randomUUID (entropy m) = randomUUID (entropy n) → m = n) →
  NoDup (ids (System.wall (System.run toDataURL entropy es System.initial))).
Proof.
  intros Hinj.
  assert (H : ∀ st,
            ids (System.wall st) `sublist_of` drawnIds entropy (System.taken st) →
            ids (System.wall (System.run toDataURL entropy es st))
              `sublist_of`
              drawnIds entropy (System.taken (System.run toDataURL entropy es st))).
  { induction es as [|e es IH]; intros st Hst; [exact Hst|].
    simpl. by apply IH, system_step_ids. }
  eapply sublist_NoDup; [|apply H; constructor].
  unfold drawnIds. apply NoDup_fmap_2_strong; [|apply NoDup_seq].
  intros m n _ _. apply Hinj.
Qed.

(** A click on the delete button of the card rendered at position [k], on a
    wall whose identifiers are distinct, removes that card and no other;
    the counter and the camera are left alone. *)
Theorem click_delete_removes_that_card (st : System.State) (k : nat)
    (c : PolaroidProps) :
  NoDup (ids (System.wall st)) →
  render (System.wall st) !! k = Some c →
  photos (System.wall
            (fst (System.step toDataURL entropy
                    (System.OnCard (Card.onClickDelete c)) st)))
  = delete k (photos (System.wall st))
  ∧ topZIndex (System.wall
                 (fst (System.step toDataURL entropy
                         (System.OnCard (Card.onClickDelete c)) st)))
    = topZIndex (System.wall st)
  ∧ System.camera
      (fst (System.step toDataURL entropy
              (System.OnCard (Card.onClickDelete c)) st))
    = System.camera st.
Proof.
  intros Hnd Hk. split; [|by split].
  rewrite render_lookup in Hk.
  destruct (photos (System.wall st) !! k) as [q|] eqn:Hq; [|done].
  injection Hk as <-. simpl.
  rewrite delete_take_drop.
  pose proof (take_drop_middle _ _ _ Hq) as Hsplit.
  unfold ids in Hnd. rewrite <- Hsplit, fmap_app, fmap_cons in Hnd.
  apply NoDup_app in Hnd as (_ & Hbefore & Hafter%NoDup_cons).
  destruct Hafter as [Hafter _].
  rewrite <- Hsplit at 1.
  rewrite filter_app, filter_cons_False by (intros Hne; by apply Hne).
  f_equal; apply filter_all; intros p Hp Heq.
  - apply (Hbefore (id q)); [|left].
    apply list_elem_of_fmap. by exists p.
  - apply Hafter. apply list_elem_of_fmap. by exists p.
Qed.

End SystemIds.

Lemma strokes_inj (m n : nat) :
  CameraTrace.strokes m = CameraTrace.strokes n → m = n.
Proof.
  revert n; induction m as [|m IH]; intros [|n]; simpl; try done.
  intros [= H]. f_equal. by apply IH.
Qed.

Lemma system_ids_distinct_witness :
  NoDup
    (Trace.ids
       (System.wall
          (System.run Sample.toDataURL CameraTrace.entropyOf
             [System.OnCamera (Camera.Shutter Sample.body);
              System.OnCamera (Camera.Shutter Sample.body);
              System.OnCamera (Camera.Elapse 600)]
             System.initial))).
Proof.
  apply (system_ids_distinct Sample.toDataURL CameraTrace.entropyOf).
  intros m n. apply strokes_inj.
Defined.

Lemma click_delete_removes_that_card_witness :
  Wall.photos
    (System.wall
       (fst (System.step Sample.toDataURL Sample.entropy
               (System.OnCard
                  (Card.onClickDelete
                     {| Wall.key := Sample.idA; Wall.photo := Sample.photoA;
                        Wall.zIndex := 10 |}))
               {| System.wall := Sample.twoCards;
                  System.camera := Camera.mount;
                  System.taken := 2 |})))
  = [Sample.photoB].
Proof.
  destruct (click_delete_removes_that_card Sample.toDataURL Sample.entropy
              {| System.wall := Sample.twoCards;
                 System.camera := Camera.mount;
                 System.taken := 2 |}
              0%nat
              {| Wall.key := Sample.idA; Wall.photo := Sample.photoA;
                 Wall.zIndex := 10 |}) as [Hdel _].
  - apply (bool_decide_unpack _). vm_compute. exact I.
  - reflexivity.
  - exact Hdel.
Defined.
